(** * CineMatch (app.py): a shallow embedding and its verified properties

    The program is a single Streamlit script.  Its logic lives in a handful of
    functions: the TMDB gateway ([_resolve_tmdb_id_from_imdb],
    [fetch_poster_by_imdb], [fetch_trailer_by_imdb],
    [get_movie_details_by_imdb]), the module-level load block, the recommender
    [recommend] and the session helper [update_history].

    Modelling conventions
    - A Python computation that may raise returns [Py.result]; one that also
      talks to TMDB or reads the memoisation cache runs in the monad
      [Gateway.M] (state passing plus exceptions).
    - Decoded JSON is the inductive type [Py.json]; [None] is [JNull].
    - [requests_retry_session().get(url, timeout=20)] is one outbound call whose
      final outcome (after urllib3's retries) is given by the environment.
    - [print] in the [except] handlers only logs and is not modelled.
    - The movie table is a list of rows under pandas' default positional index,
      so the label returned by [.index[0]] is the row position. *)

From Stdlib Require Import ZArith List String Ascii Bool Lia Arith PeanoNat.
From Stdlib Require Import Floats DecimalString DecimalPos DecimalZ Permutation Sorted.
Import ListNotations.
Set Warnings "-register-all,-inexact-float".
Local Open Scope string_scope.
Local Open Scope list_scope.

Infix "+++" := String.append (at level 60, right associativity).

(* ================================================================== *)
(** * Python values and the operations the script applies to them *)
(* ================================================================== *)

Module Py.

(** The exception classes that the modelled operations can raise. *)
Inductive exn : Set :=
| IndexError
| KeyError
| TypeError
| AttributeError
| RequestException   (* requests: connection error, timeout, retries exhausted *)
| JSONDecodeError.   (* response.json() on a body that is not JSON *)

Inductive result (A : Type) : Type :=
| Ok (a : A)
| Raise (e : exn).
Arguments Ok {A} a.
Arguments Raise {A} e.

Definition rbind {A B : Type} (r : result A) (k : A -> result B) : result B :=
  match r with
  | Ok a => k a
  | Raise e => Raise e
  end.

(** What [json.loads] produces.  A [JObj] lists the items of a [dict] in
    insertion order; lookups take the first item with the key. *)
Inductive json : Type :=
| JNull
| JBool (b : bool)
| JInt (n : Z)
| JFloat (x : float)
| JStr (s : string)
| JArr (xs : list json)
| JObj (items : list (string * json)).

(** [bool(v)], as used by [if v], [not v] and [v or w]. *)
Definition truthy (v : json) : bool :=
  match v with
  | JNull => false
  | JBool b => b
  | JInt n => negb (n =? 0)%Z
  | JFloat x => negb (PrimFloat.eqb x 0%float)
  | JStr s => negb (s =? "")
  | JArr xs => match xs with [] => false | _ :: _ => true end
  | JObj items => match items with [] => false | _ :: _ => true end
  end.

Fixpoint dict_get (items : list (string * json)) (k : string) : option json :=
  match items with
  | [] => None
  | (k', v) :: rest => if k' =? k then Some v else dict_get rest k
  end.

(** [v.get(k, default)]: only a [dict] has the method. *)
Definition get (v : json) (k : string) (default : json) : result json :=
  match v with
  | JObj items =>
      match dict_get items k with
      | Some x => Ok x
      | None => Ok default
      end
  | _ => Raise AttributeError
  end.

(** [v[k]] with a string key. *)
Definition getitem (v : json) (k : string) : result json :=
  match v with
  | JObj items =>
      match dict_get items k with
      | Some x => Ok x
      | None => Raise KeyError
      end
  | _ => Raise TypeError
  end.

(** [v[0]].  A decoded JSON object has string keys only, so [0] is never a key. *)
Definition getitem0 (v : json) : result json :=
  match v with
  | JArr (x :: _) => Ok x
  | JArr [] => Raise IndexError
  | JStr (String c _) => Ok (JStr (String c ""))
  | JStr EmptyString => Raise IndexError
  | JObj _ => Raise KeyError
  | _ => Raise TypeError
  end.

Fixpoint chars (s : string) : list json :=
  match s with
  | EmptyString => []
  | String c rest => JStr (String c "") :: chars rest
  end.

(** The items a [for] loop or a comprehension visits. *)
Definition iter (v : json) : result (list json) :=
  match v with
  | JArr xs => Ok xs
  | JStr s => Ok (chars s)
  | JObj items => Ok (map (fun kv => JStr (fst kv)) items)
  | _ => Raise TypeError
  end.

(** [v[:5]]. *)
Definition slice5 (v : json) : result json :=
  match v with
  | JArr xs => Ok (JArr (firstn 5 xs))
  | JStr s => Ok (JStr (substring 0 5 s))
  | _ => Raise TypeError
  end.

(** [v > 0]; [bool] is a subclass of [int]. *)
Definition gt0 (v : json) : result bool :=
  match v with
  | JInt n => Ok (0 <? n)%Z
  | JBool b => Ok b
  | JFloat x => Ok (PrimFloat.ltb 0%float x)
  | _ => Raise TypeError
  end.

(** [v == s] for a string constant [s]. *)
Definition eq_str (v : json) (s : string) : bool :=
  match v with
  | JStr s' => s' =? s
  | _ => false
  end.

Definition str_of_Z (n : Z) : string := NilZero.string_of_int (Z.to_int n).

(** [str(v)], as an f-string field without a format spec renders it.  The
    rendering of floats and of containers is the interpreter's [repr], taken as
    the parameter [repr]. *)
Definition str (repr : json -> string) (v : json) : string :=
  match v with
  | JStr s => s
  | JNull => "None"
  | JBool true => "True"
  | JBool false => "False"
  | JInt n => str_of_Z n
  | _ => repr v
  end.

(** Thousands grouping of a digit sequence given least significant digit
    first: a comma after every complete group of three that is followed by
    another digit. *)
Fixpoint group3_rev (ds : list ascii) : list ascii :=
  match ds with
  | a :: b :: c :: (_ :: _) as rest =>
      a :: b :: c :: ","%char :: group3_rev rest
  | _ => ds
  end.

Definition group3 (ds : list ascii) : list ascii := rev (group3_rev (rev ds)).

(** [format(n, ',')] for an [int]. *)
Definition format_comma_Z (n : Z) : string :=
  (if (n <? 0)%Z then "-" else "") +++
  string_of_list_ascii
    (group3 (list_ascii_of_string (NilZero.string_of_uint (N.to_uint (Z.abs_N n))))).

(** [f"{v:,}"]: defined for numbers; [format_float] renders a float. *)
Definition format_comma (format_float : float -> string) (v : json) : result string :=
  match v with
  | JInt n => Ok (format_comma_Z n)
  | JBool b => Ok (format_comma_Z (if b then 1 else 0))
  | JFloat x => Ok (format_float x)
  | _ => Raise TypeError
  end.

(** [sep.join(items)]: every item must be a [str]. *)
Fixpoint join (sep : string) (items : list json) : result string :=
  match items with
  | [] => Ok ""
  | JStr s :: rest =>
      match rest with
      | [] => Ok s
      | _ :: _ => rbind (join sep rest) (fun t => Ok (s +++ sep +++ t))
      end
  | _ :: _ => Raise TypeError
  end.

End Py.

Notation "x <~ r ;; k" := (Py.rbind r (fun x => k))
  (at level 61, r at next level, right associativity).


(* ================================================================== *)
(** * The TMDB gateway (app.py, lines 39-156) *)
(* ================================================================== *)

Module Gateway.
Import Py.

(** The final outcome of one [requests_retry_session().get(url, timeout=20)]:
    the call raises, or it returns a response with a status code and a body
    that [response.json()] decodes ([Some]) or rejects ([None]). *)
Inductive http_reply : Type :=
| NoReply
| Reply (status_code : Z) (body : option json).

(** What the script takes from outside: the API key of [st.secrets], the
    provider (its reply to the [n]-th outbound call, for the URL requested),
    and the interpreter's rendering of floats and containers. *)
Record environment : Type := {
  TMDB_API_KEY : string;
  provider : nat -> string -> http_reply;
  repr : json -> string;
  format_float : float -> string
}.

(** The process state the gateway touches: the store of the [lru_cache]
    around [_resolve_tmdb_id_from_imdb], least recently used entry first, and
    the URLs requested so far, oldest first. *)
Record state : Type := {
  cache : list (string * json);
  sent : list string
}.

Definition M (A : Type) : Type := state -> result A * state.

Definition ret {A : Type} (a : A) : M A := fun s => (Ok a, s).

Definition raise {A : Type} (e : exn) : M A := fun s => (Raise e, s).

Definition bind {A B : Type} (m : M A) (k : A -> M B) : M B :=
  fun s =>
    match m s with
    | (Ok a, s') => k a s'
    | (Raise e, s') => (Raise e, s')
    end.

Definition lift {A : Type} (r : result A) : M A :=
  match r with
  | Ok a => ret a
  | Raise e => raise e
  end.

(** [try: body  except Exception: handler]; what the body did to the state
    before raising stays done. *)
Definition try_except {A : Type} (body : M A) (handler : exn -> M A) : M A :=
  fun s =>
    match body s with
    | (Ok a, s') => (Ok a, s')
    | (Raise e, s') => handler e s'
    end.

Notation "x <- m ;; k" := (bind m (fun x => k))
  (at level 61, m at next level, right associativity).

(** One entry of the ["cast"] list of the bundle (lines 130-134). *)
Record cast_entry : Type := {
  name : json;
  character : json;
  profile : option string
}.

(** The bundle that [get_movie_details_by_imdb] returns (lines 140-153). *)
Record details : Type := {
  rating : json;
  vote_count : json;
  release_date : json;
  runtime : json;
  tagline : json;
  overview : json;
  director : string;
  cast : list cast_entry;
  genres : string;
  budget : string;
  revenue : string;
  available_in : string
}.

Section WithEnvironment.
Variable E : environment.

(** [requests_retry_session().get(url, timeout=20)]. *)
Definition http_get (url : string) : M (Z * option json) :=
  fun s =>
    let s' := {| cache := cache s; sent := sent s ++ [url] |} in
    match provider E (List.length (sent s)) url with
    | NoReply => (Raise RequestException, s')
    | Reply status_code body => (Ok (status_code, body), s')
    end.

(** [response.json()]. *)
Definition response_json (response : Z * option json) : result json :=
  match snd response with
  | Some data => Ok data
  | None => Raise JSONDecodeError
  end.

(** The body of [_resolve_tmdb_id_from_imdb] (lines 64-76), before the
    decorator is applied. *)
Definition resolve_wrapped (imdb_id : string) : M json :=
  if imdb_id =? "" then ret JNull
  else
    try_except
      (let url := "https://api.themoviedb.org/3/find/" +++ imdb_id +++
                  "?api_key=" +++ TMDB_API_KEY E +++ "&external_source=imdb_id" in
       r <- http_get url ;;
       if (fst r =? 200)%Z then
         payload <- lift (response_json r) ;;
         found <- lift (get payload "movie_results" JNull) ;;
         let results := if truthy found then found else JArr [] in
         if truthy results then
           first <- lift (getitem0 results) ;;
           lift (get first "id" JNull)
         else ret JNull
       else ret JNull)
      (fun _ => ret JNull).

(** ** [functools.lru_cache] *)

Fixpoint cache_find (key : string) (c : list (string * json)) : option json :=
  match c with
  | [] => None
  | (k, v) :: rest => if k =? key then Some v else cache_find key rest
  end.

Definition cache_remove (key : string) (c : list (string * json)) :
  list (string * json) :=
  filter (fun kv => negb (fst kv =? key)) c.

(** A hit makes the entry the most recently used one. *)
Definition cache_touch (key : string) (v : json) (c : list (string * json)) :
  list (string * json) :=
  cache_remove key c ++ [(key, v)].

(** Storing a new result: when the cache is full the oldest entry goes. *)
Definition cache_store (maxsize : nat) (key : string) (v : json)
  (c : list (string * json)) : list (string * json) :=
  (if (maxsize <=? List.length c)%nat then tl c else c) ++ [(key, v)].

(** The wrapper that [@lru_cache(maxsize)] puts around a one-argument function
    called with a [str]: the key is the argument itself.  A result is stored
    only when the function returned; an exception passes through. *)
Definition lru_cache (maxsize : nat) (user_function : string -> M json)
  (key : string) : M json :=
  fun s =>
    match cache_find key (cache s) with
    | Some v =>
        (Ok v, {| cache := cache_touch key v (cache s); sent := sent s |})
    | None =>
        match user_function key s with
        | (Ok v, s') =>
            match cache_find key (cache s') with
            | Some _ => (Ok v, s')
            | None =>
                (Ok v, {| cache := cache_store maxsize key v (cache s');
                          sent := sent s' |})
            end
        | (Raise e, s') => (Raise e, s')
        end
    end.

Definition maxsize : nat := 4096.

Definition _resolve_tmdb_id_from_imdb : string -> M json :=
  lru_cache maxsize resolve_wrapped.

(** ** Poster and trailer *)

Definition fetch_poster_by_imdb (imdb_id : string) : M (option string) :=
  tmdb_id <- _resolve_tmdb_id_from_imdb imdb_id ;;
  if negb (truthy tmdb_id) then ret None
  else
    try_except
      (let url := "https://api.themoviedb.org/3/movie/" +++ str (repr E) tmdb_id +++
                  "?api_key=" +++ TMDB_API_KEY E in
       response <- http_get url ;;
       if (fst response =? 200)%Z then
         data <- lift (response_json response) ;;
         poster_path <- lift (get data "poster_path" JNull) ;;
         if truthy poster_path then
           ret (Some ("https://image.tmdb.org/t/p/w500" +++ str (repr E) poster_path))
         else ret None
       else ret None)
      (fun _ => ret None).

(** The loop of lines 102-104: the first video that is a YouTube trailer. *)
Fixpoint first_trailer (videos : list json) : result (option string) :=
  match videos with
  | [] => Ok None
  | video :: rest =>
      type <~ get video "type" JNull ;;
      if eq_str type "Trailer" then
        site <~ get video "site" JNull ;;
        if eq_str site "YouTube" then
          key <~ getitem video "key" ;;
          Ok (Some ("https://youtu.be/" +++ str (repr E) key))
        else first_trailer rest
      else first_trailer rest
  end.

Definition fetch_trailer_by_imdb (imdb_id : string) : M (option string) :=
  tmdb_id <- _resolve_tmdb_id_from_imdb imdb_id ;;
  if negb (truthy tmdb_id) then ret None
  else
    try_except
      (let url := "https://api.themoviedb.org/3/movie/" +++ str (repr E) tmdb_id +++
                  "/videos?api_key=" +++ TMDB_API_KEY E in
       response <- http_get url ;;
       if (fst response =? 200)%Z then
         data <- lift (response_json response) ;;
         results <- lift (get data "results" (JArr [])) ;;
         videos <- lift (iter results) ;;
         lift (first_trailer videos)
       else ret None)
      (fun _ => ret None).

(** ** The details bundle *)

(** The loop of lines 129-134 over the (at most five) cast items. *)
Fixpoint cast_details_of (cast : list json) : result (list cast_entry) :=
  match cast with
  | [] => Ok []
  | actor :: rest =>
      name <~ get actor "name" JNull ;;
      character <~ get actor "character" JNull ;;
      has_profile <~ get actor "profile_path" JNull ;;
      profile <~ (if truthy has_profile then
                    profile_path <~ getitem actor "profile_path" ;;
                    Ok (Some ("https://image.tmdb.org/t/p/w500" +++
                              str (repr E) profile_path))
                  else Ok None) ;;
      more <~ cast_details_of rest ;;
      Ok ({| name := name; character := character; profile := profile |} :: more)
  end.

(** [[x[field] for x in items]]. *)
Fixpoint fields_of (field : string) (items : list json) : result (list json) :=
  match items with
  | [] => Ok []
  | x :: rest =>
      v <~ getitem x field ;;
      more <~ fields_of field rest ;;
      Ok (v :: more)
  end.

(** [", ".join([x[field] for x in data.get(key, [])]) if data.get(key) else "N/A"]
    (lines 136 and 139). *)
Definition joined_names (data : json) (key field : string) : result string :=
  present <~ get data key JNull ;;
  if truthy present then
    listed <~ get data key (JArr []) ;;
    items <~ iter listed ;;
    names <~ fields_of field items ;;
    join ", " names
  else Ok "N/A".

(** [f"${data.get(key, 0):,}" if data.get(key, 0) > 0 else "N/A"]
    (lines 137 and 138). *)
Definition money (data : json) (key : string) : result string :=
  amount <~ get data key (JInt 0) ;;
  positive <~ gt0 amount ;;
  if positive then
    amount' <~ get data key (JInt 0) ;;
    grouped <~ format_comma (format_float E) amount' ;;
    Ok ("$" +++ grouped)
  else Ok "N/A".

(** Lines 123-153: the bundle built from the decoded response [data]. *)
Definition build_details (data : json) (director_name : string) : result details :=
  let directors := if negb (director_name =? "") then director_name else "N/A" in
  credits <~ get data "credits" (JObj []) ;;
  listed <~ get credits "cast" (JArr []) ;;
  cast <~ slice5 listed ;;
  actors <~ iter cast ;;
  cast_details <~ cast_details_of actors ;;
  genres <~ joined_names data "genres" "name" ;;
  budget <~ money data "budget" ;;
  revenue <~ money data "revenue" ;;
  available_in <~ joined_names data "spoken_languages" "english_name" ;;
  rating <~ get data "vote_average" JNull ;;
  vote_count <~ get data "vote_count" JNull ;;
  release_date <~ get data "release_date" JNull ;;
  runtime <~ get data "runtime" JNull ;;
  tagline <~ get data "tagline" JNull ;;
  overview <~ get data "overview" JNull ;;
  Ok {| rating := rating;
        vote_count := vote_count;
        release_date := release_date;
        runtime := runtime;
        tagline := tagline;
        overview := overview;
        director := directors;
        cast := cast_details;
        genres := genres;
        budget := budget;
        revenue := revenue;
        available_in := available_in |}.

Definition get_movie_details_by_imdb (imdb_id director_name : string) :
  M (option details) :=
  tmdb_id <- _resolve_tmdb_id_from_imdb imdb_id ;;
  if negb (truthy tmdb_id) then ret None
  else
    try_except
      (let url := "https://api.themoviedb.org/3/movie/" +++ str (repr E) tmdb_id +++
                  "?api_key=" +++ TMDB_API_KEY E +++
                  "&append_to_response=credits,videos" in
       response <- http_get url ;;
       if (fst response =? 200)%Z then
         data <- lift (response_json response) ;;
         bundle <- lift (build_details data director_name) ;;
         ret (Some bundle)
       else ret None)
      (fun _ => ret None).

End WithEnvironment.

End Gateway.

(* ================================================================== *)
(** * The load block (app.py, lines 164-213) *)
(* ================================================================== *)

Module Loader.

(** A row of the movie table.  The two [astype(str)] assignments of lines
    212-213 make both identifying columns strings. *)
Record movie_row : Type := {
  imdb_id : string;
  original_title : string;
  director : option string
}.

(** The unpickled movie table: its column labels and its rows in order. *)
Record DataFrame : Type := {
  columns : list string;
  rows : list movie_row
}.

(** The two [for p in ...: try: ... break  except: ...] loops: each element of
    [attempts] is what [pickle.load(open(p, "rb"))] gave for one candidate
    path, [None] when it raised. *)
Fixpoint first_loaded {A : Type} (attempts : list (option A)) : option A :=
  match attempts with
  | [] => None
  | Some a :: _ => Some a
  | None :: rest => first_loaded rest
  end.

Definition has_column (movies : DataFrame) (label : string) : bool :=
  existsb (String.eqb label) (columns movies).

(** How the load block ends: [st.error(message); st.stop()], or the script goes
    on with the globals [movies], [similarity] and [has_director_col]. *)
Inductive startup (matrix : Type) : Type :=
| Stopped (message : string)
| Loaded (movies : DataFrame) (similarity : matrix) (has_director_col : bool).
Arguments Stopped {matrix} message.
Arguments Loaded {matrix} movies similarity has_director_col.

Definition load_block {matrix : Type}
  (movie_files : list (option DataFrame))
  (similarity_files : list (option matrix)) : startup matrix :=
  match first_loaded movie_files, first_loaded similarity_files with
  | Some movies, Some similarity =>
      if negb (has_column movies "original_title") then
        Stopped "The movies dataframe must contain an 'original_title' column."
      else if negb (has_column movies "imdb_id") then
        Stopped "The movies dataframe must contain an 'imdb_id' column."
      else Loaded movies similarity (has_column movies "director")
  | _, _ =>
      Stopped "Could not load movie_list.pkl or similarity.pkl. Check paths/files."
  end.

End Loader.

(* ================================================================== *)
(** * The recommender (app.py, lines 218-236) *)
(* ================================================================== *)

Module Recommender.
Import Py Gateway Loader.

Record recommendation : Type := {
  title : string;
  poster : option string;
  trailer : option string
}.

(** [list(enumerate(xs))]. *)
Definition enumerate {A : Type} (xs : list A) : list (nat * A) :=
  combine (seq 0 (List.length xs)) xs.

(** [xs[1:6]]. *)
Definition slice_1_6 {A : Type} (xs : list A) : list A := firstn 5 (skipn 1 xs).

Section Sorted.
Context {A K : Type}.
Variable lt : K -> K -> bool.   (* [<] on keys, the only comparison [sorted] uses *)
Variable key : A -> K.

(** A stable ascending sort: [x] is put before the first element whose key is
    not smaller than its own, so it stays ahead of the equal elements that
    followed it in the input. *)
Fixpoint insert (x : A) (sorted : list A) : list A :=
  match sorted with
  | [] => [x]
  | y :: rest => if lt (key y) (key x) then y :: insert x rest else x :: y :: rest
  end.

Fixpoint sort_stable (xs : list A) : list A :=
  match xs with
  | [] => []
  | x :: rest => insert x (sort_stable rest)
  end.

(** [sorted(xs, reverse=reverse, key=key)].  CPython keeps a reverse sort
    stable by reversing the list, running the stable ascending sort, and
    reversing the result. *)
Definition sorted (reverse : bool) (xs : list A) : list A :=
  if reverse then rev (sort_stable (rev xs)) else sort_stable xs.

End Sorted.

(** [movies[movies["original_title"] == movie_title].index[0]]. *)
Fixpoint first_match (movie_title : string) (table : list movie_row) : option nat :=
  match table with
  | [] => None
  | r :: rest =>
      if original_title r =? movie_title then Some 0
      else option_map S (first_match movie_title rest)
  end.

Definition index_of_title (movies : DataFrame) (movie_title : string) : result nat :=
  match first_match movie_title (rows movies) with
  | Some index => Ok index
  | None => Raise IndexError
  end.

(** [xs[i]] and [movies.iloc[i]] for a position [i]. *)
Definition at_position {A : Type} (xs : list A) (i : nat) : result A :=
  match nth_error xs i with
  | Some x => Ok x
  | None => Raise IndexError
  end.

(** [for x in xs: out.append(f(x))]. *)
Fixpoint for_each {A B : Type} (f : A -> M B) (xs : list A) : M (list B) :=
  match xs with
  | [] => ret []
  | x :: rest =>
      y <- f x ;;
      ys <- for_each f rest ;;
      ret (y :: ys)
  end.

Section Recommend.
Variable E : environment.
Variable score : Type.
Variable lt : score -> score -> bool.        (* [<] on matrix entries *)
Variable movies : DataFrame.                 (* the global [movies] *)
Variable similarity : list (list score).     (* the global [similarity] *)

(** Line 224, for the matrix row [row]. *)
Definition distances (row : list score) : list (nat * score) :=
  sorted lt snd true (enumerate row).

(** Lines 228-235: one pass of the loop. *)
Definition recommendation_for (i : nat * score) : M recommendation :=
  row <- lift (at_position (rows movies) (fst i)) ;;
  let rec_imdb_id := imdb_id row in
  poster <- fetch_poster_by_imdb E rec_imdb_id ;;
  trailer <- fetch_trailer_by_imdb E rec_imdb_id ;;
  ret {| title := original_title row; poster := poster; trailer := trailer |}.

Definition recommend (movie_title : string) : M (list recommendation) :=
  index <- lift (index_of_title movies movie_title) ;;
  row <- lift (at_position similarity index) ;;
  for_each recommendation_for (slice_1_6 (distances row)).

End Recommend.

End Recommender.

(* ================================================================== *)
(** * The recently-viewed list (app.py, lines 247-252) *)
(* ================================================================== *)

Module History.

(** [st.session_state.history] before the call is [history]; the result is
    the list after it. *)
Definition update_history (imdb_id : string) (history : list string) : list string :=
  if match history with [] => true | _ => false end
     || negb (last history "" =? imdb_id)
  then
    let appended := history ++ [imdb_id] in
    if (5 <? List.length appended)%nat then tl appended else appended
  else history.

(** The list after a sequence of calls, starting from the empty list of
    line 23. *)
Definition viewed (calls : list string) : list string :=
  fold_left (fun history imdb_id => update_history imdb_id history) calls [].

End History.

(* ================================================================== *)
(** * Properties of the recently-viewed list *)
(* ================================================================== *)

Module HistoryFacts.
Import History.

(** No two neighbours of the list are equal. *)
Fixpoint adjacent_distinct (l : list string) : bool :=
  match l with
  | x :: (y :: _) as rest => negb (x =? y) && adjacent_distinct rest
  | _ => true
  end.

(** The last [n] elements, in order. *)
Definition lastn {A : Type} (n : nat) (l : list A) : list A :=
  skipn (List.length l - n) l.

Definition is_empty {A : Type} (l : list A) : bool :=
  match l with [] => true | _ :: _ => false end.

Lemma viewed_snoc (calls : list string) (imdb_id : string) :
  viewed (calls ++ [imdb_id]) = update_history imdb_id (viewed calls).
Proof. unfold viewed. rewrite fold_left_app. reflexivity. Qed.

Lemma tl_snoc {A : Type} (l : list A) (x : A) :
  l <> [] -> tl (l ++ [x]) = tl l ++ [x].
Proof. destruct l; [congruence | reflexivity]. Qed.

(** What one call does, by cases. *)
Lemma update_history_cases (imdb_id : string) (history : list string) :
  update_history imdb_id history =
    if negb (is_empty history) && (last history "" =? imdb_id) then history
    else if (List.length history <? 5)%nat then history ++ [imdb_id]
    else tl history ++ [imdb_id].
Proof.
  unfold update_history, is_empty.
  destruct history as [|h0 rest]; [reflexivity|].
  cbn [orb negb andb].
  destruct (last (h0 :: rest) "" =? imdb_id); cbn [negb]; [reflexivity|].
  rewrite length_app. cbn [List.length].
  destruct (Nat.ltb_spec (S (List.length rest)) 5) as [Hlt|Hge].
  - destruct (Nat.ltb_spec 5 (S (List.length rest) + 1)); [lia | reflexivity].
  - destruct (Nat.ltb_spec 5 (S (List.length rest) + 1)); [reflexivity | lia].
Qed.

Lemma update_history_length (imdb_id : string) (history : list string) :
  List.length history <= 5 -> List.length (update_history imdb_id history) <= 5.
Proof.
  intros Hlen. rewrite update_history_cases.
  destruct (negb (is_empty history) && (last history "" =? imdb_id)); [exact Hlen|].
  destruct (Nat.ltb_spec (List.length history) 5) as [Hlt|Hge].
  - rewrite length_app. cbn. lia.
  - rewrite length_app. destruct history; cbn in *; lia.
Qed.

Lemma adjacent_distinct_snoc (l : list string) (x : string) :
  adjacent_distinct (l ++ [x]) =
    adjacent_distinct l && (is_empty l || negb (last l "" =? x)).
Proof.
  induction l as [|a l IH]; [reflexivity|].
  destruct l as [|b l].
  - cbn. now rewrite andb_true_r.
  - change ((a :: b :: l) ++ [x]) with (a :: ((b :: l) ++ [x])).
    change (adjacent_distinct (a :: (b :: l) ++ [x]))
      with (negb (a =? b) && adjacent_distinct ((b :: l) ++ [x])).
    rewrite IH.
    change (adjacent_distinct (a :: b :: l))
      with (negb (a =? b) && adjacent_distinct (b :: l)).
    change (last (a :: b :: l) "") with (last (b :: l) "").
    cbn [is_empty orb]. now rewrite andb_assoc.
Qed.

Lemma adjacent_distinct_tl (l : list string) :
  adjacent_distinct l = true -> adjacent_distinct (tl l) = true.
Proof.
  destruct l as [|a [|b l]]; try reflexivity.
  intros H. change (negb (a =? b) && adjacent_distinct (b :: l) = true) in H.
  apply andb_true_iff in H. exact (proj2 H).
Qed.

Lemma last_tl (l : list string) (d : string) :
  tl l <> [] -> last (tl l) d = last l d.
Proof. destruct l as [|a [|b l]]; cbn; congruence. Qed.

Lemma update_history_adjacent_distinct (imdb_id : string) (history : list string) :
  adjacent_distinct history = true ->
  adjacent_distinct (update_history imdb_id history) = true.
Proof.
  intros Hd. rewrite update_history_cases.
  destruct (negb (is_empty history) && (last history "" =? imdb_id)) eqn:Hsame;
    [exact Hd|].
  destruct (List.length history <? 5)%nat.
  - rewrite adjacent_distinct_snoc, Hd. cbn [andb].
    destruct history; [reflexivity|]. cbn [is_empty negb andb orb] in *.
    now rewrite Hsame.
  - rewrite adjacent_distinct_snoc, (adjacent_distinct_tl _ Hd). cbn [andb].
    destruct (tl history) as [|t0 trest] eqn:Htl; [reflexivity|].
    cbn [is_empty orb]. rewrite <- Htl, last_tl by (rewrite Htl; discriminate).
    destruct history; [discriminate|]. cbn [is_empty negb andb] in Hsame.
    now rewrite Hsame.
Qed.

Lemma tl_skipn {A : Type} (k : nat) (l : list A) : tl (skipn k l) = skipn (S k) l.
Proof.
  revert l. induction k as [|k IH]; intros [|a l]; try reflexivity.
  cbn [skipn]. apply IH.
Qed.

Lemma last_skipn (k : nat) (l : list string) (d : string) :
  k < List.length l -> last (skipn k l) d = last l d.
Proof.
  revert l. induction k as [|k IH]; intros l Hk; [reflexivity|].
  destruct l as [|a l]; [cbn in Hk; lia|].
  cbn [skipn]. rewrite IH by (cbn in Hk; lia).
  destruct l; [cbn in Hk; lia | reflexivity].
Qed.

(** On a call sequence without immediate repeats the list is the last five
    calls. *)
Lemma viewed_lastn (calls : list string) :
  adjacent_distinct calls = true -> viewed calls = lastn 5 calls.
Proof.
  induction calls as [|x calls IH] using rev_ind; [reflexivity|].
  rewrite adjacent_distinct_snoc, viewed_snoc.
  intros H. apply andb_true_iff in H. destruct H as [Hd Hx].
  rewrite (IH Hd), update_history_cases.
  unfold lastn. rewrite length_app. cbn [List.length].
  destruct (Nat.le_gt_cases (List.length calls) 4) as [Hshort|Hlong].
  - replace (List.length calls - 5) with 0 by lia.
    replace (List.length calls + 1 - 5) with 0 by lia.
    cbn [skipn].
    destruct calls as [|c calls]; [reflexivity|].
    cbn [is_empty orb negb andb] in *.
    apply negb_true_iff in Hx. rewrite Hx.
    destruct (Nat.ltb_spec (List.length (c :: calls)) 5); [reflexivity | lia].
  - assert (Hne : is_empty (skipn (List.length calls - 5) calls) = false).
    { destruct (skipn (List.length calls - 5) calls) eqn:Hs; [|reflexivity].
      apply (f_equal (@List.length string)) in Hs.
      rewrite length_skipn in Hs. cbn in Hs. lia. }
    rewrite Hne. cbn [negb andb].
    rewrite last_skipn by lia.
    destruct calls as [|c calls]; [cbn in Hlong; lia|].
    cbn [is_empty orb] in Hx. apply negb_true_iff in Hx. rewrite Hx.
    rewrite length_skipn.
    destruct (Nat.ltb_spec (List.length (c :: calls) - (List.length (c :: calls) - 5)) 5);
      [lia|].
    rewrite tl_skipn, skipn_app.
    replace (S (List.length (c :: calls) - 5)) with (List.length (c :: calls) + 1 - 5) by lia.
    replace (List.length (c :: calls) + 1 - 5 - List.length (c :: calls)) with 0 by lia.
    reflexivity.
Qed.

Lemma viewed_invariant (calls : list string) :
  List.length (viewed calls) <= 5 /\ adjacent_distinct (viewed calls) = true.
Proof.
  induction calls as [|x calls [IHlen IHd]] using rev_ind.
  - split; [cbn; lia | reflexivity].
  - rewrite viewed_snoc. split.
    + now apply update_history_length.
    + now apply update_history_adjacent_distinct.
Qed.

(** C7.  Whatever the sequence of [update_history] calls made since the list
    was created empty, the list holds at most five identifiers and no two
    neighbours are equal.  A further call with the identifier that is already
    last changes nothing; any other identifier is appended at the end, and the
    front entry is dropped when the list was already five long.  On a call
    sequence without immediate repeats the list is exactly the last five
    calls, oldest first; in particular six pairwise distinct identifiers leave
    the last five of them. *)
Theorem update_history_bounded_recent (calls : list string) :
  List.length (viewed calls) <= 5 /\
  adjacent_distinct (viewed calls) = true /\
  (forall imdb_id : string,
     viewed (calls ++ [imdb_id]) =
       if negb (is_empty (viewed calls)) && (last (viewed calls) "" =? imdb_id)
       then viewed calls
       else if (List.length (viewed calls) <? 5)%nat then viewed calls ++ [imdb_id]
       else tl (viewed calls) ++ [imdb_id]) /\
  (adjacent_distinct calls = true -> viewed calls = lastn 5 calls) /\
  (forall a b c d e f : string,
     NoDup [a; b; c; d; e; f] -> viewed [a; b; c; d; e; f] = [b; c; d; e; f]).
Proof.
  destruct (viewed_invariant calls) as [Hlen Hd].
  repeat split; try assumption.
  - intros imdb_id. rewrite viewed_snoc. apply update_history_cases.
  - apply viewed_lastn.
  - intros a b c d e f Hnd.
    rewrite viewed_lastn; [reflexivity|].
    repeat match goal with
           | H : NoDup (_ :: _) |- _ => inversion H; subst; clear H
           end.
    cbn [adjacent_distinct].
    repeat match goal with
           | H : ~ In ?x (?y :: _) |- _ =>
               assert (x <> y) by (intros ->; apply H; left; reflexivity);
               assert (~ In x [y] -> True) by tauto; clear H
           end.
    repeat match goal with
           | H : ?x <> ?y |- _ => apply String.eqb_neq in H; rewrite H; clear H
           end.
    reflexivity.
Qed.

End HistoryFacts.

(* ================================================================== *)
(** * Properties of the load block *)
(* ================================================================== *)

Module LoaderFacts.
Import Loader.

Definition two_movies : DataFrame :=
  {| columns := ["imdb_id"; "original_title"];
     rows := [ {| imdb_id := "tt0000001"; original_title := "A"; director := None |};
               {| imdb_id := "tt0000002"; original_title := "B"; director := None |} ] |}.

Definition one_row_matrix : list (list Z) := [[1%Z; 0%Z]].

(** C9, as stated, fails: a two-row movie table and a one-row similarity
    matrix both load, and the block lets the script go on. *)
Lemma load_block_accepts_row_count_mismatch :
  List.length (rows two_movies) <> List.length one_row_matrix /\
  load_block [Some two_movies] [Some one_row_matrix] =
    Loaded two_movies one_row_matrix false.
Proof. split; [cbn; lia | reflexivity]. Qed.

Lemma load_block_stopped_iff {matrix : Type}
  (movie_files : list (option DataFrame)) (similarity_files : list (option matrix)) :
  (exists message, load_block movie_files similarity_files = Stopped message) <->
  (first_loaded movie_files = None \/
   first_loaded similarity_files = None \/
   exists movies, first_loaded movie_files = Some movies /\
                  (has_column movies "original_title" = false \/
                   has_column movies "imdb_id" = false)).
Proof.
  unfold load_block.
  destruct (first_loaded movie_files) as [movies|];
    destruct (first_loaded similarity_files) as [similarity|].
  - destruct (has_column movies "original_title") eqn:Ht;
      destruct (has_column movies "imdb_id") eqn:Hi; cbn [negb].
    + split.
      * intros [message H]. discriminate H.
      * intros [H | [H | (m & Hm & [H | H])]]; try discriminate;
          injection Hm as <-; congruence.
    + split; [intros _ | intros _; eexists; reflexivity].
      right; right. exists movies. auto.
    + split; [intros _ | intros _; eexists; reflexivity].
      right; right. exists movies. auto.
    + split; [intros _ | intros _; eexists; reflexivity].
      right; right. exists movies. auto.
  - split; [intros _; auto | intros _; eexists; reflexivity].
  - split; [intros _; auto | intros _; eexists; reflexivity].
  - split; [intros _; auto | intros _; eexists; reflexivity].
Qed.

(** C9, amended.  The load block stops the script exactly when one of the two
    artifacts could not be loaded from any candidate path or the movie table
    lacks the [original_title] or the [imdb_id] column.  When both artifacts
    load and both columns are there the script goes on with them, whatever the
    similarity matrix is: its shape is never looked at. *)
Theorem load_block_checks_files_and_columns (matrix : Type)
  (movie_files : list (option DataFrame)) (similarity_files : list (option matrix)) :
  ((exists message, load_block movie_files similarity_files = Stopped message) <->
   (first_loaded movie_files = None \/
    first_loaded similarity_files = None \/
    exists movies, first_loaded movie_files = Some movies /\
                   (has_column movies "original_title" = false \/
                    has_column movies "imdb_id" = false))) /\
  (forall (movies : DataFrame) (similarity : matrix),
     first_loaded movie_files = Some movies ->
     first_loaded similarity_files = Some similarity ->
     has_column movies "original_title" = true ->
     has_column movies "imdb_id" = true ->
     load_block movie_files similarity_files =
       Loaded movies similarity (has_column movies "director")).
Proof.
  split; [apply load_block_stopped_iff|].
  intros movies similarity Hm Hs Ht Hi.
  unfold load_block. rewrite Hm, Hs, Ht, Hi. reflexivity.
Qed.

End LoaderFacts.

(* ================================================================== *)
(** * Properties of the gateway *)
(* ================================================================== *)

Module GatewayFacts.
Import Py Gateway.

(** A computation that returns normally from every state. *)
Definition never_raises {A : Type} (m : M A) : Prop :=
  forall s, exists a s', m s = (Ok a, s').

Lemma ret_never_raises {A : Type} (a : A) : never_raises (ret a).
Proof. intros s. now exists a, s. Qed.

Lemma bind_never_raises {A B : Type} (m : M A) (k : A -> M B) :
  never_raises m -> (forall a, never_raises (k a)) -> never_raises (bind m k).
Proof.
  intros Hm Hk s. unfold bind.
  destruct (Hm s) as (a & s' & ->). apply Hk.
Qed.

(** An [except Exception] clause whose handler returns makes the whole
    statement return. *)
Lemma try_except_never_raises {A : Type} (body : M A) (handler : exn -> M A) :
  (forall e, never_raises (handler e)) -> never_raises (try_except body handler).
Proof.
  intros Hh s. unfold try_except.
  destruct (body s) as [[a|e] s'].
  - now exists a, s'.
  - apply Hh.
Qed.

Lemma lru_cache_never_raises (n : nat) (f : string -> M json) :
  (forall key, never_raises (f key)) -> forall key, never_raises (lru_cache n f key).
Proof.
  intros Hf key s. unfold lru_cache.
  destruct (cache_find key (cache s)) as [v|]; [eauto|].
  destruct (Hf key s) as (v & s' & ->).
  destruct (cache_find key (cache s')); eauto.
Qed.

(** A computation that leaves the state as it found it. *)
Definition keeps_state {A : Type} (m : M A) : Prop := forall s, snd (m s) = s.

Lemma keeps_state_run {A : Type} (m : M A) (s : state) :
  keeps_state m -> snd (m s) = s.
Proof. intros H. apply H. Qed.

Lemma keeps_state_ret {A : Type} (a : A) : keeps_state (ret a).
Proof. intros s. reflexivity. Qed.

Lemma keeps_state_lift {A : Type} (r : result A) : keeps_state (lift r).
Proof. intros s. destruct r; reflexivity. Qed.

Lemma keeps_state_bind {A B : Type} (m : M A) (k : A -> M B) :
  keeps_state m -> (forall a, keeps_state (k a)) -> keeps_state (bind m k).
Proof.
  intros Hm Hk s. unfold bind. specialize (Hm s).
  destruct (m s) as [[a|e] s']; cbn [snd] in Hm; subst s'.
  - apply Hk.
  - reflexivity.
Qed.

Ltac keeps :=
  repeat first
    [ apply keeps_state_ret
    | apply keeps_state_lift
    | apply keeps_state_bind
    | match goal with
      | |- forall _, _ => intro
      | |- keeps_state (if ?b then _ else _) => destruct b
      | |- keeps_state (let _ := _ in _) => cbv zeta
      end ].








Section WithEnvironment.
Variable E : environment.

Lemma resolve_wrapped_never_raises (imdb_id : string) :
  never_raises (resolve_wrapped E imdb_id).
Proof.
  unfold resolve_wrapped. destruct (imdb_id =? "").
  - apply ret_never_raises.
  - apply try_except_never_raises. intros _. apply ret_never_raises.
Qed.

Lemma resolve_never_raises (imdb_id : string) :
  never_raises (_resolve_tmdb_id_from_imdb E imdb_id).
Proof. apply lru_cache_never_raises, resolve_wrapped_never_raises. Qed.

Lemma fetch_poster_never_raises (imdb_id : string) :
  never_raises (fetch_poster_by_imdb E imdb_id).
Proof.
  apply bind_never_raises; [apply resolve_never_raises|].
  intros tmdb_id. destruct (negb (truthy tmdb_id)).
  - apply ret_never_raises.
  - apply try_except_never_raises. intros _. apply ret_never_raises.
Qed.

Lemma fetch_trailer_never_raises (imdb_id : string) :
  never_raises (fetch_trailer_by_imdb E imdb_id).
Proof.
  apply bind_never_raises; [apply resolve_never_raises|].
  intros tmdb_id. destruct (negb (truthy tmdb_id)).
  - apply ret_never_raises.
  - apply try_except_never_raises. intros _. apply ret_never_raises.
Qed.

Lemma get_movie_details_never_raises (imdb_id director_name : string) :
  never_raises (get_movie_details_by_imdb E imdb_id director_name).
Proof.
  apply bind_never_raises; [apply resolve_never_raises|].
  intros tmdb_id. destruct (negb (truthy tmdb_id)).
  - apply ret_never_raises.
  - apply try_except_never_raises. intros _. apply ret_never_raises.
Qed.

(** ** Where a result other than [None] comes from *)

(** The URL of the find-by-external-id request (line 67). *)
Definition find_url (imdb_id : string) : string :=
  "https://api.themoviedb.org/3/find/" +++ imdb_id +++
  "?api_key=" +++ TMDB_API_KEY E +++ "&external_source=imdb_id".

(** The URLs of lines 83, 99 and 118. *)
Definition movie_url (tmdb_id : json) : string :=
  "https://api.themoviedb.org/3/movie/" +++ str (repr E) tmdb_id +++
  "?api_key=" +++ TMDB_API_KEY E.

Definition videos_url (tmdb_id : json) : string :=
  "https://api.themoviedb.org/3/movie/" +++ str (repr E) tmdb_id +++
  "/videos?api_key=" +++ TMDB_API_KEY E.

Definition details_url (tmdb_id : json) : string :=
  "https://api.themoviedb.org/3/movie/" +++ str (repr E) tmdb_id +++
  "?api_key=" +++ TMDB_API_KEY E +++ "&append_to_response=credits,videos".

(** The resolver returns something other than [None] for an identifier that
    is not cached only when the find request was answered with status 200 and
    a body whose [movie_results] list starts with an object; the result is
    that object's [id]. *)
Lemma resolve_from_reply (imdb_id : string) (s s' : state) (tmdb_id : json) :
  cache_find imdb_id (cache s) = None ->
  _resolve_tmdb_id_from_imdb E imdb_id s = (Ok tmdb_id, s') ->
  tmdb_id <> JNull ->
  imdb_id <> "" /\
  exists payload found first,
    provider E (List.length (sent s)) (find_url imdb_id) = Reply 200 (Some payload) /\
    get payload "movie_results" JNull = Ok found /\
    truthy found = true /\
    getitem0 found = Ok first /\
    get first "id" JNull = Ok tmdb_id.
Proof.
  intros Hmiss Hrun Hsome.
  unfold _resolve_tmdb_id_from_imdb, lru_cache in Hrun. rewrite Hmiss in Hrun.
  assert (Hbody : fst (resolve_wrapped E imdb_id s) = Ok tmdb_id).
  { destruct (resolve_wrapped E imdb_id s) as [[v|e] s1]; [|discriminate].
    destruct (cache_find imdb_id (cache s1)); injection Hrun as -> _; reflexivity. }
  clear Hrun. unfold resolve_wrapped in Hbody.
  destruct (String.eqb_spec imdb_id "") as [->|Hne];
    [cbn in Hbody; congruence|].
  split; [exact Hne|].
  cbv zeta in Hbody. fold (find_url imdb_id) in Hbody.
  unfold try_except, bind, http_get in Hbody.
  destruct (provider E (List.length (sent s)) (find_url imdb_id))
    as [|status_code body]; [cbn in Hbody; congruence|].
  cbn [fst snd] in Hbody.
  destruct (Z.eqb_spec status_code 200) as [->|_]; [|cbn in Hbody; congruence].
  destruct body as [payload|]; [|cbn in Hbody; congruence].
  exists payload. cbn [response_json snd lift ret] in Hbody.
  destruct (get payload "movie_results" JNull) as [found|e];
    [|cbn in Hbody; congruence].
  exists found. cbn [lift ret] in Hbody.
  destruct (truthy found) eqn:Hfound; [|cbn in Hbody; congruence].
  rewrite Hfound in Hbody.
  destruct (getitem0 found) as [first|e]; [|cbn in Hbody; congruence].
  exists first. cbn [lift ret] in Hbody.
  destruct (get first "id" JNull) as [v|e]; cbn in Hbody; [|congruence].
  injection Hbody as ->. auto.
Qed.

(** A poster URL comes back only from a reply with status 200 whose body is
    an object with a non-empty [poster_path]. *)
Lemma poster_from_reply (imdb_id : string) (s s' : state) (poster : string) :
  fetch_poster_by_imdb E imdb_id s = (Ok (Some poster), s') ->
  exists n url data poster_path,
    provider E n url = Reply 200 (Some data) /\
    get data "poster_path" JNull = Ok poster_path /\
    truthy poster_path = true /\
    poster = "https://image.tmdb.org/t/p/w500" +++ str (repr E) poster_path.
Proof.
  unfold fetch_poster_by_imdb. unfold bind at 1.
  destruct (_resolve_tmdb_id_from_imdb E imdb_id s) as [[tmdb_id|e] s1];
    [|discriminate].
  destruct (negb (truthy tmdb_id)); [discriminate|].
  unfold try_except, bind, http_get. intros Hrun.
  match type of Hrun with
  | context [provider E ?n ?u] =>
      destruct (provider E n u) as [|status_code body] eqn:Hreply;
      [discriminate|]; exists n, u
  end.
  cbn [fst snd] in Hrun.
  destruct (Z.eqb_spec status_code 200) as [->|_]; [|discriminate].
  destruct body as [data|]; [|discriminate].
  exists data. cbn [response_json snd lift ret] in Hrun.
  destruct (get data "poster_path" JNull) as [poster_path|e]; [|discriminate].
  exists poster_path. cbn [lift ret] in Hrun.
  destruct (truthy poster_path); [|discriminate].
  injection Hrun as <- _. auto.
Qed.

(** A trailer URL comes back only from a reply with status 200 whose body is
    an object with an iterable [results] in which the loop finds a YouTube
    trailer. *)
Lemma trailer_from_reply (imdb_id : string) (s s' : state) (trailer : string) :
  fetch_trailer_by_imdb E imdb_id s = (Ok (Some trailer), s') ->
  exists n url data results videos,
    provider E n url = Reply 200 (Some data) /\
    get data "results" (JArr []) = Ok results /\
    iter results = Ok videos /\
    first_trailer E videos = Ok (Some trailer).
Proof.
  unfold fetch_trailer_by_imdb. unfold bind at 1.
  destruct (_resolve_tmdb_id_from_imdb E imdb_id s) as [[tmdb_id|e] s1];
    [|discriminate].
  destruct (negb (truthy tmdb_id)); [discriminate|].
  unfold try_except, bind, http_get. intros Hrun.
  match type of Hrun with
  | context [provider E ?n ?u] =>
      destruct (provider E n u) as [|status_code body] eqn:Hreply;
      [discriminate|]; exists n, u
  end.
  cbn [fst snd] in Hrun.
  destruct (Z.eqb_spec status_code 200) as [->|_]; [|discriminate].
  destruct body as [data|]; [|discriminate].
  exists data. cbn [response_json snd lift ret] in Hrun.
  destruct (get data "results" (JArr [])) as [results|e]; [|discriminate].
  exists results. cbn [lift ret] in Hrun.
  destruct (iter results) as [videos|e]; [|discriminate].
  exists videos. cbn [lift ret] in Hrun.
  destruct (first_trailer E videos) as [found|e]; [|discriminate].
  cbn in Hrun. injection Hrun as -> _. auto.
Qed.

(** A bundle comes back only from a reply with status 200 whose body decodes,
    and it is the one built from that body. *)
Lemma details_from_reply (imdb_id director_name : string) (s s' : state)
  (bundle : details) :
  get_movie_details_by_imdb E imdb_id director_name s = (Ok (Some bundle), s') ->
  exists n url data,
    provider E n url = Reply 200 (Some data) /\
    build_details E data director_name = Ok bundle.
Proof.
  unfold get_movie_details_by_imdb. unfold bind at 1.
  destruct (_resolve_tmdb_id_from_imdb E imdb_id s) as [[tmdb_id|e] s1];
    [|discriminate].
  destruct (negb (truthy tmdb_id)); [discriminate|].
  unfold try_except, bind, http_get. intros Hrun.
  match type of Hrun with
  | context [provider E ?n ?u] =>
      destruct (provider E n u) as [|status_code body] eqn:Hreply;
      [discriminate|]; exists n, u
  end.
  cbn [fst snd] in Hrun.
  destruct (Z.eqb_spec status_code 200) as [->|_]; [|discriminate].
  destruct body as [data|]; [|discriminate].
  exists data. cbn [response_json snd lift ret] in Hrun.
  destruct (build_details E data director_name) as [b|e]; [|discriminate].
  cbn in Hrun. injection Hrun as -> _. now split.
Qed.

(** ** Replies that are failures *)

(** The call raised, or the status is not 200, or the body does not decode. *)
Definition failed (r : http_reply) : Prop :=
  match r with
  | NoReply => True
  | Reply status_code body => status_code <> 200%Z \/ body = None
  end.

Ltac failed_request Hout :=
  unfold try_except, bind, http_get;
  match goal with
  | |- context [provider E ?n ?u] =>
      let Hf := fresh "Hf" in
      pose proof (Hout n u) as Hf;
      destruct (provider E n u) as [|status_code body]; [reflexivity|];
      cbn [fst snd];
      destruct (Z.eqb_spec status_code 200) as [->|_]; [|reflexivity];
      destruct Hf as [Hf|Hf]; [congruence|];
      rewrite Hf; reflexivity
  end.

Lemma resolve_wrapped_outage (imdb_id : string) (s : state) :
  (forall n url, failed (provider E n url)) ->
  fst (resolve_wrapped E imdb_id s) = Ok JNull.
Proof.
  intros Hout. unfold resolve_wrapped.
  destruct (imdb_id =? ""); [reflexivity|].
  failed_request Hout.
Qed.

Lemma resolve_outage (imdb_id : string) (s : state) :
  (forall n url, failed (provider E n url)) ->
  cache_find imdb_id (cache s) = None ->
  fst (_resolve_tmdb_id_from_imdb E imdb_id s) = Ok JNull.
Proof.
  intros Hout Hmiss. unfold _resolve_tmdb_id_from_imdb, lru_cache.
  rewrite Hmiss.
  pose proof (resolve_wrapped_outage imdb_id s Hout) as Hw.
  destruct (resolve_wrapped E imdb_id s) as [[v|e] s']; cbn [fst] in Hw;
    [|discriminate].
  injection Hw as ->.
  destruct (cache_find imdb_id (cache s')); reflexivity.
Qed.

Lemma fetch_poster_outage (imdb_id : string) (s : state) :
  (forall n url, failed (provider E n url)) ->
  fst (fetch_poster_by_imdb E imdb_id s) = Ok None.
Proof.
  intros Hout. unfold fetch_poster_by_imdb. unfold bind at 1.
  destruct (resolve_never_raises imdb_id s) as (tmdb_id & s1 & ->).
  destruct (negb (truthy tmdb_id)); [reflexivity|].
  failed_request Hout.
Qed.

Lemma fetch_trailer_outage (imdb_id : string) (s : state) :
  (forall n url, failed (provider E n url)) ->
  fst (fetch_trailer_by_imdb E imdb_id s) = Ok None.
Proof.
  intros Hout. unfold fetch_trailer_by_imdb. unfold bind at 1.
  destruct (resolve_never_raises imdb_id s) as (tmdb_id & s1 & ->).
  destruct (negb (truthy tmdb_id)); [reflexivity|].
  failed_request Hout.
Qed.

Lemma get_movie_details_outage (imdb_id director_name : string) (s : state) :
  (forall n url, failed (provider E n url)) ->
  fst (get_movie_details_by_imdb E imdb_id director_name s) = Ok None.
Proof.
  intros Hout. unfold get_movie_details_by_imdb. unfold bind at 1.
  destruct (resolve_never_raises imdb_id s) as (tmdb_id & s1 & ->).
  destruct (negb (truthy tmdb_id)); [reflexivity|].
  failed_request Hout.
Qed.

(** ** The request an operation sends, and its reply *)

(** A resolution that missed the cache and whose find request failed gives
    [None]. *)
Lemma resolve_failed_request (imdb_id : string) (s : state) :
  cache_find imdb_id (cache s) = None ->
  failed (provider E (List.length (sent s)) (find_url imdb_id)) ->
  fst (_resolve_tmdb_id_from_imdb E imdb_id s) = Ok JNull.
Proof.
  intros Hmiss Hf. unfold _resolve_tmdb_id_from_imdb, lru_cache. rewrite Hmiss.
  assert (Hw : fst (resolve_wrapped E imdb_id s) = Ok JNull).
  { unfold resolve_wrapped. destruct (imdb_id =? ""); [reflexivity|].
    cbv zeta. fold (find_url imdb_id). unfold try_except, bind, http_get.
    destruct (provider E (List.length (sent s)) (find_url imdb_id))
      as [|status_code body]; [reflexivity|].
    cbn [fst snd]. destruct (Z.eqb_spec status_code 200) as [->|_]; [|reflexivity].
    destruct Hf as [Hf|Hf]; [congruence|]. rewrite Hf. reflexivity. }
  destruct (resolve_wrapped E imdb_id s) as [[v|e] s']; cbn [fst] in Hw;
    [|discriminate].
  injection Hw as ->.
  destruct (cache_find imdb_id (cache s')); reflexivity.
Qed.

(** The poster operation, once the identifier is resolved to [tmdb_id] in
    state [s1]: it sends its request from [s1] to the movie endpoint of
    [tmdb_id], and what it returns is decided by the reply to this request. *)
Lemma fetch_poster_by_request (imdb_id : string) (s s1 : state) (tmdb_id : json) :
  _resolve_tmdb_id_from_imdb E imdb_id s = (Ok tmdb_id, s1) ->
  exists poster s',
    fetch_poster_by_imdb E imdb_id s = (Ok poster, s') /\
    (truthy tmdb_id = false -> poster = None) /\
    (failed (provider E (List.length (sent s1)) (movie_url tmdb_id)) ->
     poster = None) /\
    (forall url, poster = Some url ->
       exists data poster_path,
         provider E (List.length (sent s1)) (movie_url tmdb_id) =
           Reply 200 (Some data) /\
         get data "poster_path" JNull = Ok poster_path /\
         truthy poster_path = true /\
         url = "https://image.tmdb.org/t/p/w500" +++ str (repr E) poster_path).
Proof.
  intros Hrun. unfold fetch_poster_by_imdb. unfold bind at 1. rewrite Hrun.
  destruct (truthy tmdb_id); cbn [negb].
  2:{ exists None, s1. split; [reflexivity|]. split; [reflexivity|].
      split; [reflexivity | discriminate]. }
  cbv zeta. fold (movie_url tmdb_id). unfold try_except, bind, http_get.
  destruct (provider E (List.length (sent s1)) (movie_url tmdb_id))
    as [|status_code body].
  { eexists None, _. split; [reflexivity|]. split; [reflexivity|].
    split; [reflexivity | discriminate]. }
  cbn [fst snd].
  destruct (Z.eqb_spec status_code 200) as [->|Hstatus].
  2:{ eexists None, _. split; [reflexivity|]. split; [reflexivity|].
      split; [reflexivity | discriminate]. }
  destruct body as [data|].
  2:{ eexists None, _. split; [reflexivity|]. split; [reflexivity|].
      split; [reflexivity | discriminate]. }
  cbn [response_json snd lift ret].
  destruct (get data "poster_path" JNull) as [poster_path|e] eqn:Hget.
  2:{ eexists None, _. split; [reflexivity|]. split; [reflexivity|].
      split; [reflexivity | discriminate]. }
  cbn [lift ret].
  destruct (truthy poster_path) eqn:Htruthy.
  2:{ eexists None, _. split; [reflexivity|]. split; [reflexivity|].
      split; [reflexivity | discriminate]. }
  eexists (Some _), _. split; [reflexivity|]. split; [discriminate|].
  split; [intros [Hf|Hf]; congruence|].
  intros url [= <-]. exists data, poster_path. auto.
Qed.

(** The same for the trailer operation and the videos endpoint. *)
Lemma fetch_trailer_by_request (imdb_id : string) (s s1 : state) (tmdb_id : json) :
  _resolve_tmdb_id_from_imdb E imdb_id s = (Ok tmdb_id, s1) ->
  exists trailer s',
    fetch_trailer_by_imdb E imdb_id s = (Ok trailer, s') /\
    (truthy tmdb_id = false -> trailer = None) /\
    (failed (provider E (List.length (sent s1)) (videos_url tmdb_id)) ->
     trailer = None) /\
    (forall url, trailer = Some url ->
       exists data results videos,
         provider E (List.length (sent s1)) (videos_url tmdb_id) =
           Reply 200 (Some data) /\
         get data "results" (JArr []) = Ok results /\
         iter results = Ok videos /\
         first_trailer E videos = Ok (Some url)).
Proof.
  intros Hrun. unfold fetch_trailer_by_imdb. unfold bind at 1. rewrite Hrun.
  destruct (truthy tmdb_id); cbn [negb].
  2:{ exists None, s1. split; [reflexivity|]. split; [reflexivity|].
      split; [reflexivity | discriminate]. }
  cbv zeta. fold (videos_url tmdb_id). unfold try_except, bind, http_get.
  destruct (provider E (List.length (sent s1)) (videos_url tmdb_id))
    as [|status_code body].
  { eexists None, _. split; [reflexivity|]. split; [reflexivity|].
    split; [reflexivity | discriminate]. }
  cbn [fst snd].
  destruct (Z.eqb_spec status_code 200) as [->|Hstatus].
  2:{ eexists None, _. split; [reflexivity|]. split; [reflexivity|].
      split; [reflexivity | discriminate]. }
  destruct body as [data|].
  2:{ eexists None, _. split; [reflexivity|]. split; [reflexivity|].
      split; [reflexivity | discriminate]. }
  cbn [response_json snd lift ret].
  destruct (get data "results" (JArr [])) as [results|e] eqn:Hget.
  2:{ eexists None, _. split; [reflexivity|]. split; [reflexivity|].
      split; [reflexivity | discriminate]. }
  cbn [lift ret].
  destruct (iter results) as [videos|e] eqn:Hiter.
  2:{ eexists None, _. split; [reflexivity|]. split; [reflexivity|].
      split; [reflexivity | discriminate]. }
  cbn [lift ret].
  destruct (first_trailer E videos) as [[found|]|e] eqn:Hfound; cbn [lift ret].
  - eexists (Some found), _. split; [reflexivity|]. split; [discriminate|].
    split; [intros [Hf|Hf]; congruence|].
    intros url [= <-]. exists data, results, videos. auto.
  - eexists None, _. split; [reflexivity|]. split; [reflexivity|].
    split; [reflexivity | discriminate].
  - eexists None, _. split; [reflexivity|]. split; [reflexivity|].
    split; [reflexivity | discriminate].
Qed.

(** The same for the details operation and the details endpoint. *)
Lemma get_movie_details_by_request (imdb_id director_name : string)
  (s s1 : state) (tmdb_id : json) :
  _resolve_tmdb_id_from_imdb E imdb_id s = (Ok tmdb_id, s1) ->
  exists bundle s',
    get_movie_details_by_imdb E imdb_id director_name s = (Ok bundle, s') /\
    (truthy tmdb_id = false -> bundle = None) /\
    (failed (provider E (List.length (sent s1)) (details_url tmdb_id)) ->
     bundle = None) /\
    (forall built, bundle = Some built ->
       exists data,
         provider E (List.length (sent s1)) (details_url tmdb_id) =
           Reply 200 (Some data) /\
         build_details E data director_name = Ok built).
Proof.
  intros Hrun. unfold get_movie_details_by_imdb. unfold bind at 1. rewrite Hrun.
  destruct (truthy tmdb_id); cbn [negb].
  2:{ exists None, s1. split; [reflexivity|]. split; [reflexivity|].
      split; [reflexivity | discriminate]. }
  cbv zeta. fold (details_url tmdb_id). unfold try_except, bind, http_get.
  destruct (provider E (List.length (sent s1)) (details_url tmdb_id))
    as [|status_code body].
  { eexists None, _. split; [reflexivity|]. split; [reflexivity|].
    split; [reflexivity | discriminate]. }
  cbn [fst snd].
  destruct (Z.eqb_spec status_code 200) as [->|Hstatus].
  2:{ eexists None, _. split; [reflexivity|]. split; [reflexivity|].
      split; [reflexivity | discriminate]. }
  destruct body as [data|].
  2:{ eexists None, _. split; [reflexivity|]. split; [reflexivity|].
      split; [reflexivity | discriminate]. }
  cbn [response_json snd lift ret].
  destruct (build_details E data director_name) as [built|e] eqn:Hbuild;
    cbn [lift ret].
  - eexists (Some built), _. split; [reflexivity|]. split; [discriminate|].
    split; [intros [Hf|Hf]; congruence|].
    intros built' [= <-]. exists data. auto.
  - eexists None, _. split; [reflexivity|]. split; [reflexivity|].
    split; [reflexivity | discriminate].
Qed.

(** C5.  Whatever the identifier, the state of the cache and the behaviour of
    the provider, each of the four gateway operations returns to its caller:
    none of them raises.  The resolver returns some [tmdb_id], leaving state
    [s1]: the cached value when the identifier is cached, and otherwise
    [None] when its find request failed (the call raised, the status is not
    200, or the body does not decode), and a value other than [None]
    only from a 200 reply to that request whose [movie_results] starts with
    an object carrying it.  Each of the poster, trailer and details
    operations returns [None] when [tmdb_id] is falsy and when the one
    request it sends (from [s1], to its own endpoint for [tmdb_id]) failed;
    a result other than [None] comes only from a 200 reply to that very
    request whose decoded body has the fields the operation reads, so a
    missing or malformed field ends in [None] too. *)
Theorem gateway_never_raises (imdb_id director_name : string) (s : state) :
  exists tmdb_id s1,
    _resolve_tmdb_id_from_imdb E imdb_id s = (Ok tmdb_id, s1) /\
    (forall cached, cache_find imdb_id (cache s) = Some cached ->
                    tmdb_id = cached) /\
    (cache_find imdb_id (cache s) = None ->
     (imdb_id = "" -> tmdb_id = JNull) /\
     (failed (provider E (List.length (sent s)) (find_url imdb_id)) ->
      tmdb_id = JNull) /\
     (tmdb_id <> JNull ->
      exists payload found first,
        provider E (List.length (sent s)) (find_url imdb_id) =
          Reply 200 (Some payload) /\
        get payload "movie_results" JNull = Ok found /\
        truthy found = true /\
        getitem0 found = Ok first /\
        get first "id" JNull = Ok tmdb_id)) /\
    (exists poster s',
       fetch_poster_by_imdb E imdb_id s = (Ok poster, s') /\
       (truthy tmdb_id = false -> poster = None) /\
       (failed (provider E (List.length (sent s1)) (movie_url tmdb_id)) ->
        poster = None) /\
       (forall url, poster = Some url ->
          exists data poster_path,
            provider E (List.length (sent s1)) (movie_url tmdb_id) =
              Reply 200 (Some data) /\
            get data "poster_path" JNull = Ok poster_path /\
            truthy poster_path = true /\
            url = "https://image.tmdb.org/t/p/w500" +++ str (repr E) poster_path)) /\
    (exists trailer s',
       fetch_trailer_by_imdb E imdb_id s = (Ok trailer, s') /\
       (truthy tmdb_id = false -> trailer = None) /\
       (failed (provider E (List.length (sent s1)) (videos_url tmdb_id)) ->
        trailer = None) /\
       (forall url, trailer = Some url ->
          exists data results videos,
            provider E (List.length (sent s1)) (videos_url tmdb_id) =
              Reply 200 (Some data) /\
            get data "results" (JArr []) = Ok results /\
            iter results = Ok videos /\
            first_trailer E videos = Ok (Some url))) /\
    (exists bundle s',
       get_movie_details_by_imdb E imdb_id director_name s = (Ok bundle, s') /\
       (truthy tmdb_id = false -> bundle = None) /\
       (failed (provider E (List.length (sent s1)) (details_url tmdb_id)) ->
        bundle = None) /\
       (forall built, bundle = Some built ->
          exists data,
            provider E (List.length (sent s1)) (details_url tmdb_id) =
              Reply 200 (Some data) /\
            build_details E data director_name = Ok built)).
Proof.
  destruct (resolve_never_raises imdb_id s) as (tmdb_id & s1 & Hrun).
  exists tmdb_id, s1. split; [exact Hrun|]. split; [|split].
  - intros cached Hhit.
    unfold _resolve_tmdb_id_from_imdb, lru_cache in Hrun. rewrite Hhit in Hrun.
    now injection Hrun as <- _.
  - intros Hmiss. split; [|split].
    + intros ->.
      unfold _resolve_tmdb_id_from_imdb, lru_cache in Hrun. rewrite Hmiss in Hrun.
      change (resolve_wrapped E "" s) with (Ok JNull, s) in Hrun.
      cbv beta iota in Hrun. rewrite Hmiss in Hrun. now injection Hrun as <- _.
    + intros Hf. pose proof (resolve_failed_request imdb_id s Hmiss Hf) as Hnone.
      rewrite Hrun in Hnone. now injection Hnone as ->.
    + intros Hsome.
      exact (proj2 (resolve_from_reply imdb_id s s1 tmdb_id Hmiss Hrun Hsome)).
  - split; [exact (fetch_poster_by_request imdb_id s s1 tmdb_id Hrun)|].
    split; [exact (fetch_trailer_by_request imdb_id s s1 tmdb_id Hrun)|].
    exact (get_movie_details_by_request imdb_id director_name s s1 tmdb_id Hrun).
Qed.

(** ** What the operations do to the state *)

Lemma resolve_wrapped_empty (s : state) : resolve_wrapped E "" s = (Ok JNull, s).
Proof. reflexivity. Qed.

(** For a non-empty identifier the body makes exactly one outbound call and
    touches nothing else. *)
Lemma resolve_wrapped_state (imdb_id : string) (s : state) :
  imdb_id <> "" ->
  snd (resolve_wrapped E imdb_id s) =
    {| cache := cache s; sent := sent s ++ [find_url imdb_id] |}.
Proof.
  intros Hne. unfold resolve_wrapped.
  apply String.eqb_neq in Hne. rewrite Hne. cbv zeta.
  fold (find_url imdb_id).
  unfold try_except. unfold bind at 1. unfold http_get.
  destruct (provider E (List.length (sent s)) (find_url imdb_id))
    as [|status_code body]; [reflexivity|].
  match goal with
  | |- snd (match ?k ?st with _ => _ end) = _ =>
      assert (Hk : snd (k st) = st) by (apply keeps_state_run; keeps);
      destruct (k st) as [[v|e] st']; cbn [snd] in Hk; subst st'; reflexivity
  end.
Qed.

Lemma cache_find_app (key : string) (c1 c2 : list (string * json)) :
  cache_find key (c1 ++ c2) =
    match cache_find key c1 with
    | Some v => Some v
    | None => cache_find key c2
    end.
Proof.
  induction c1 as [|[k v] c1 IH]; [reflexivity|].
  cbn. destruct (k =? key); [reflexivity | exact IH].
Qed.

Lemma cache_find_remove (key : string) (c : list (string * json)) :
  cache_find key (cache_remove key c) = None.
Proof.
  induction c as [|[k v] c IH]; [reflexivity|].
  cbn. destruct (k =? key) eqn:Hk; cbn; [exact IH|].
  rewrite Hk. exact IH.
Qed.

Lemma cache_find_tl (key : string) (c : list (string * json)) :
  cache_find key c = None -> cache_find key (tl c) = None.
Proof.
  destruct c as [|[k v] c]; [reflexivity|].
  cbn. destruct (k =? key); [discriminate | trivial].
Qed.

Lemma cache_find_touch (key : string) (v : json) (c : list (string * json)) :
  cache_find key (cache_touch key v c) = Some v.
Proof.
  unfold cache_touch. rewrite cache_find_app, cache_find_remove.
  cbn. now rewrite String.eqb_refl.
Qed.

Lemma cache_find_store (n : nat) (key : string) (v : json) (c : list (string * json)) :
  cache_find key c = None -> cache_find key (cache_store n key v c) = Some v.
Proof.
  intros Hmiss. unfold cache_store. rewrite cache_find_app.
  assert (Hpre : cache_find key (if (n <=? List.length c)%nat then tl c else c) = None).
  { destruct (n <=? List.length c)%nat; [now apply cache_find_tl | exact Hmiss]. }
  rewrite Hpre. cbn. now rewrite String.eqb_refl.
Qed.

(** A hit: the cached value comes back, nothing is sent, the entry becomes
    the most recently used one. *)
Lemma resolve_hit (imdb_id : string) (v : json) (s : state) :
  cache_find imdb_id (cache s) = Some v ->
  _resolve_tmdb_id_from_imdb E imdb_id s =
    (Ok v, {| cache := cache_touch imdb_id v (cache s); sent := sent s |}).
Proof.
  intros Hhit. unfold _resolve_tmdb_id_from_imdb, lru_cache.
  now rewrite Hhit.
Qed.

(** A miss: the body runs once and its result is stored. *)
Lemma resolve_miss (imdb_id : string) (s : state) :
  cache_find imdb_id (cache s) = None ->
  exists v,
    fst (resolve_wrapped E imdb_id s) = Ok v /\
    _resolve_tmdb_id_from_imdb E imdb_id s =
      (Ok v, {| cache := cache_store maxsize imdb_id v (cache s);
                sent := if imdb_id =? "" then sent s
                        else sent s ++ [find_url imdb_id] |}).
Proof.
  intros Hmiss. unfold _resolve_tmdb_id_from_imdb, lru_cache.
  rewrite Hmiss.
  destruct (String.eqb_spec imdb_id "") as [->|Hne].
  - rewrite resolve_wrapped_empty. cbn [cache]. rewrite Hmiss.
    exists JNull. split; reflexivity.
  - pose proof (resolve_wrapped_state imdb_id s Hne) as Hst.
    destruct (resolve_wrapped_never_raises imdb_id s) as (v & s' & Hrun).
    rewrite Hrun in Hst |- *. cbn [snd] in Hst. subst s'.
    cbn [cache sent]. rewrite Hmiss.
    exists v. split; reflexivity.
Qed.


End WithEnvironment.

(** ** Thousands grouping *)

Definition not_comma (c : ascii) : bool := negb (Ascii.eqb c ",").

(** Induction along the recursion of [group3_rev]: three digits at a time. *)
Lemma by_threes (P : list ascii -> Prop) :
  P [] -> (forall a, P [a]) -> (forall a b, P [a; b]) -> (forall a b c, P [a; b; c]) ->
  (forall a b c d rest, P (d :: rest) -> P (a :: b :: c :: d :: rest)) ->
  forall ds, P ds.
Proof.
  intros H0 H1 H2 H3 Hstep.
  assert (Hall : forall n ds, List.length ds <= n -> P ds).
  { induction n as [|n IH]; intros ds Hlen.
    - destruct ds; [exact H0 | cbn in Hlen; lia].
    - destruct ds as [|a [|b [|c [|d rest]]]]; auto.
      apply Hstep. apply IH. cbn in Hlen |- *. lia. }
  intros ds. now apply (Hall (List.length ds)).
Qed.

Lemma not_comma_spec (c : ascii) : not_comma c = true <-> c <> ","%char.
Proof.
  unfold not_comma. rewrite negb_true_iff. apply Ascii.eqb_neq.
Qed.

Lemma filter_all {A : Type} (f : A -> bool) (l : list A) :
  forallb f l = true -> filter f l = l.
Proof.
  induction l as [|x l IH]; [reflexivity|].
  cbn. intros H. apply andb_true_iff in H. destruct H as [-> H].
  now rewrite IH.
Qed.

Lemma nth_not_comma (ds : list ascii) (i : nat) :
  forallb not_comma ds = true -> i < List.length ds -> nth i ds "0"%char <> ","%char.
Proof.
  intros Hds Hi. apply not_comma_spec.
  rewrite forallb_forall in Hds. apply Hds. now apply nth_In.
Qed.

Lemma forallb_skip3 (f : ascii -> bool) (a b c : ascii) (rest : list ascii) :
  forallb f (a :: b :: c :: rest) = true ->
  f a = true /\ f b = true /\ f c = true /\ forallb f rest = true.
Proof.
  cbn [forallb]. intros H.
  apply andb_true_iff in H. destruct H as [Ha H].
  apply andb_true_iff in H. destruct H as [Hb H].
  apply andb_true_iff in H. destruct H as [Hc H].
  auto.
Qed.

(** Taking the commas out of a grouped digit sequence gives the digits back. *)
Lemma group3_rev_strip (ds : list ascii) :
  forallb not_comma ds = true -> filter not_comma (group3_rev ds) = ds.
Proof.
  induction ds as [|a|a b|a b c|a b c d rest IH] using by_threes;
    intros Hds; try (now apply (filter_all not_comma)).
  apply forallb_skip3 in Hds. destruct Hds as (Ha & Hb & Hc & Hds).
  change (group3_rev (a :: b :: c :: d :: rest))
    with (a :: b :: c :: ","%char :: group3_rev (d :: rest)).
  cbn [filter]. rewrite Ha, Hb, Hc.
  change (not_comma ",") with false. cbn iota.
  now rewrite (IH Hds).
Qed.

(** In a grouped digit sequence, read from the least significant end, the
    commas stand at the positions 3, 7, 11, ... and nowhere else. *)
Lemma group3_rev_commas (ds : list ascii) :
  forallb not_comma ds = true ->
  forall i, i < List.length (group3_rev ds) ->
            (nth i (group3_rev ds) "0"%char = ","%char <-> i mod 4 = 3).
Proof.
  assert (Hshort : forall ds i,
             forallb not_comma ds = true -> List.length ds <= 3 ->
             i < List.length ds ->
             (nth i ds "0"%char = ","%char <-> i mod 4 = 3)).
  { intros l i Hl Hlen Hi. rewrite Nat.mod_small by lia.
    pose proof (nth_not_comma l i Hl Hi). split; [contradiction | lia]. }
  induction ds as [|a|a b|a b c|a b c d rest IH] using by_threes;
    intros Hds i Hi;
    try (apply Hshort; [exact Hds | cbn; lia | exact Hi]).
  apply forallb_skip3 in Hds. destruct Hds as (Ha & Hb & Hc & Hds).
  apply not_comma_spec in Ha, Hb, Hc.
  change (group3_rev (a :: b :: c :: d :: rest))
    with (a :: b :: c :: ","%char :: group3_rev (d :: rest)) in Hi |- *.
  destruct i as [|[|[|[|i]]]].
  - cbn. split; [congruence | discriminate].
  - cbn. split; [congruence | discriminate].
  - cbn. split; [congruence | discriminate].
  - cbn. split; reflexivity.
  - change (nth (S (S (S (S i)))) (a :: b :: c :: ","%char :: group3_rev (d :: rest)) "0"%char)
      with (nth i (group3_rev (d :: rest)) "0"%char).
    replace (S (S (S (S i)))) with (i + 1 * 4) by lia.
    rewrite Nat.Div0.mod_add.
    apply (IH Hds). cbn [List.length] in Hi. lia.
Qed.

Lemma digits_no_comma (d : Decimal.uint) :
  forallb not_comma (list_ascii_of_string (NilZero.string_of_uint d)) = true.
Proof.
  assert (H : forall d, forallb not_comma
                          (list_ascii_of_string (NilEmpty.string_of_uint d)) = true).
  { clear d. induction d; cbn; try exact IHd; reflexivity. }
  destruct d; try apply H. reflexivity.
Qed.

(** [format(n, ',')] for a positive [n]: without its commas it is the decimal
    numeral of [n], and counted from the right its commas stand exactly at
    every fourth position. *)
Lemma format_comma_Z_grouped (n : Z) :
  (0 < n)%Z ->
  filter not_comma (list_ascii_of_string (format_comma_Z n)) =
    list_ascii_of_string (str_of_Z n) /\
  forall i, i < List.length (list_ascii_of_string (format_comma_Z n)) ->
            (nth i (rev (list_ascii_of_string (format_comma_Z n))) "0"%char = ","%char
             <-> i mod 4 = 3).
Proof.
  intros Hn. destruct n as [|p|p]; try lia.
  unfold format_comma_Z, str_of_Z, group3.
  change (Z.pos p <? 0)%Z with false.
  change (Z.abs_N (Z.pos p)) with (N.pos p).
  change (N.to_uint (N.pos p)) with (Pos.to_uint p).
  change (Z.to_int (Z.pos p)) with (Decimal.Pos (Pos.to_uint p)).
  change (NilZero.string_of_int (Decimal.Pos (Pos.to_uint p)))
    with (NilZero.string_of_uint (Pos.to_uint p)).
  cbn [String.append].
  rewrite list_ascii_of_string_of_list_ascii.
  set (ds := list_ascii_of_string (NilZero.string_of_uint (Pos.to_uint p))).
  assert (Hds : forallb not_comma (rev ds) = true).
  { rewrite forallb_forall. intros c Hc. apply in_rev in Hc.
    pose proof (digits_no_comma (Pos.to_uint p)) as Hd.
    rewrite forallb_forall in Hd. now apply Hd. }
  split.
  - rewrite filter_rev, (group3_rev_strip _ Hds). apply rev_involutive.
  - intros i Hi. rewrite rev_involutive.
    apply (group3_rev_commas _ Hds). now rewrite length_rev in Hi.
Qed.

(** ** The money fields of the bundle *)

Section Money.
Variable E : environment.

(** The text of a money field, from what the response holds under its key:
    [None] stands for a missing key, and a result of [None] for a value that
    is no number, with which no bundle is built. *)
Definition money_text (amount : option json) : option string :=
  match amount with
  | None => Some "N/A"
  | Some (JInt n) => Some (if (0 <? n)%Z then "$" +++ format_comma_Z n else "N/A")
  | Some (JBool b) => Some (if b then "$1" else "N/A")
  | Some (JFloat x) =>
      Some (if PrimFloat.ltb 0%float x then "$" +++ format_float E x else "N/A")
  | Some _ => None
  end.

Lemma money_of_dict (items : list (string * json)) (key : string) :
  money E (JObj items) key =
    match money_text (dict_get items key) with
    | Some text => Ok text
    | None => Raise TypeError
    end.
Proof.
  unfold money, get.
  destruct (dict_get items key) as [[| [|] | n | x | t | xs | kvs]|]; cbn;
    try reflexivity.
  - destruct (0 <? n)%Z; reflexivity.
  - destruct (PrimFloat.ltb 0 x); reflexivity.
Qed.

Lemma rbind_Ok {A B : Type} (r : result A) (k : A -> result B) (b : B) :
  rbind r k = Ok b -> exists a, r = Ok a /\ k a = Ok b.
Proof. destruct r as [a|e]; [eauto | discriminate]. Qed.

(** A bundle is built from a [dict] only, and its two money fields are what
    [money] gives for the keys [budget] and [revenue]. *)
Lemma build_details_money (data : json) (director_name : string) (bundle : details) :
  build_details E data director_name = Ok bundle ->
  exists items, data = JObj items /\
                money E data "budget" = Ok (budget bundle) /\
                money E data "revenue" = Ok (revenue bundle).
Proof.
  unfold build_details. intros H.
  assert (Hdict : exists items, data = JObj items).
  { destruct data; try discriminate H. eauto. }
  destruct Hdict as [items ->]. exists items. split; [reflexivity|].
  repeat match type of H with
         | rbind _ _ = Ok _ =>
             let a := fresh "a" in
             let Ha := fresh "Ha" in
             apply rbind_Ok in H; destruct H as (a & Ha & H)
         end.
  injection H as <-. cbn [budget revenue]. now split.
Qed.

(** C6.  When [get_movie_details_by_imdb] returns a bundle, it was built from
    a decoded response that is a JSON object, and its [budget] and [revenue]
    fields are the texts of that object's [budget] and [revenue] entries: for
    an integer value a dollar sign followed by the thousands-grouped numeral
    when the value is positive and ["N/A"] when it is not (as for a missing
    key).  The grouped numeral of a positive integer is its decimal numeral
    with a comma at exactly every fourth position from the right; 0 gives
    ["N/A"] and 250000000 gives ["$250,000,000"]. *)
Theorem details_money_fields (imdb_id director_name : string) (s s' : state)
  (bundle : details) :
  get_movie_details_by_imdb E imdb_id director_name s = (Ok (Some bundle), s') ->
  (exists n url items,
     provider E n url = Reply 200 (Some (JObj items)) /\
     Some (budget bundle) = money_text (dict_get items "budget") /\
     Some (revenue bundle) = money_text (dict_get items "revenue")) /\
  (forall amount : Z,
     money_text (Some (JInt amount)) =
       Some (if (0 <? amount)%Z then "$" +++ format_comma_Z amount else "N/A")) /\
  (forall amount : Z,
     (0 < amount)%Z ->
     filter not_comma (list_ascii_of_string (format_comma_Z amount)) =
       list_ascii_of_string (str_of_Z amount) /\
     forall i, i < List.length (list_ascii_of_string (format_comma_Z amount)) ->
               (nth i (rev (list_ascii_of_string (format_comma_Z amount))) "0"%char
                = ","%char <-> i mod 4 = 3)) /\
  money_text (Some (JInt 0)) = Some "N/A" /\
  money_text (Some (JInt 250000000)) = Some "$250,000,000".
Proof.
  intros Hrun. split; [|split; [|split; [|split]]].
  - destruct (details_from_reply E _ _ _ _ _ Hrun) as (n & url & data & Hreply & Hbuild).
    destruct (build_details_money _ _ _ Hbuild) as (items & -> & Hb & Hr).
    exists n, url, items. split; [exact Hreply|].
    rewrite money_of_dict in Hb, Hr.
    destruct (money_text (dict_get items "budget")); [|discriminate].
    destruct (money_text (dict_get items "revenue")); [|discriminate].
    split; congruence.
  - reflexivity.
  - apply format_comma_Z_grouped.
  - reflexivity.
  - reflexivity.
Qed.

End Money.

(** ** Recency order of the cache keys *)






Lemma StronglySorted_snoc {A : Type} (R : A -> A -> Prop) (l : list A) (a : A) :
  StronglySorted R l -> Forall (fun x => R x a) l -> StronglySorted R (l ++ [a]).
Proof.
  induction 1 as [|x l Hs IH Hx]; intros Ha.
  - repeat constructor.
  - inversion Ha as [|? ? Hxa Hla]; subst.
    cbn. constructor; [now apply IH|].
    apply Forall_app. split; [exact Hx | repeat constructor; exact Hxa].
Qed.















(** ** States the process can be in *)

Section Reachable.
Variable E : environment.

(** A call of one of the four gateway operations. *)
Inductive call : Type :=
| Resolve (imdb_id : string)
| Poster (imdb_id : string)
| Trailer (imdb_id : string)
| Details (imdb_id director_name : string).


Definition perform (c : call) (s : state) : state :=
  match c with
  | Resolve imdb_id => snd (_resolve_tmdb_id_from_imdb E imdb_id s)
  | Poster imdb_id => snd (fetch_poster_by_imdb E imdb_id s)
  | Trailer imdb_id => snd (fetch_trailer_by_imdb E imdb_id s)
  | Details imdb_id director_name =>
      snd (get_movie_details_by_imdb E imdb_id director_name s)
  end.

(** The state at process start: nothing cached, nothing sent. *)
Definition initial : state := {| cache := []; sent := [] |}.

Definition after (calls : list call) : state :=
  fold_left (fun s c => perform c s) calls initial.









End Reachable.

(** ** A concrete run *)

(** A provider that answers the find request with one result and every later
    request with a detail record whose budget is 250000000 and whose revenue
    is 0. *)
Definition find_answer : json :=
  JObj [("movie_results", JArr [JObj [("id", JInt 27205)]])].

Definition detail_answer : json :=
  JObj [("id", JInt 27205); ("budget", JInt 250000000); ("revenue", JInt 0);
        ("genres", JArr [JObj [("id", JInt 28); ("name", JStr "Action")]])].

Definition answering : environment :=
  {| TMDB_API_KEY := "key";
     provider := fun n _ => if (n =? 0)%nat then Reply 200 (Some find_answer)
                            else Reply 200 (Some detail_answer);
     repr := fun _ => "";
     format_float := fun _ => "" |}.

Lemma details_money_fields_witness :
  exists bundle s',
    get_movie_details_by_imdb answering "tt1375666" "" initial =
      (Ok (Some bundle), s') /\
    budget bundle = "$250,000,000" /\
    revenue bundle = "N/A" /\
    exists n url items,
      provider answering n url = Reply 200 (Some (JObj items)) /\
      Some (budget bundle) = money_text answering (dict_get items "budget") /\
      Some (revenue bundle) = money_text answering (dict_get items "revenue").
Proof.
  eexists. eexists. split; [cbv; reflexivity|].
  split; [reflexivity|]. split; [reflexivity|].
  exact (proj1 (details_money_fields answering "tt1375666" "" initial _ _ eq_refl)).
Defined.

End GatewayFacts.

(* ================================================================== *)
(** * Properties of the recommender *)
(* ================================================================== *)

Module RecommenderFacts.
Import Py Gateway Loader Recommender GatewayFacts.

(** [lt] is a strict weak order on the keys that satisfy [P]: irreflexive,
    transitive, and with a transitive "neither is smaller" relation.  Python's
    [<] on numbers other than NaN is one. *)
Record strict_weak_order_on {K : Type} (P : K -> Prop) (lt : K -> K -> bool) : Prop := {
  lt_irrefl : forall x, P x -> lt x x = false;
  lt_trans : forall x y z, P x -> P y -> P z ->
             lt x y = true -> lt y z = true -> lt x z = true;
  lt_incomparable : forall x y z, P x -> P y -> P z ->
                    lt x y = false -> lt y z = false -> lt x z = false
}.

Lemma Z_ltb_strict_weak_order : strict_weak_order_on (fun _ : Z => True) Z.ltb.
Proof.
  split.
  - intros x _. apply Z.ltb_irrefl.
  - intros x y z _ _ _ Hxy Hyz. apply Z.ltb_lt in Hxy, Hyz. apply Z.ltb_lt. lia.
  - intros x y z _ _ _ Hxy Hyz. apply Z.ltb_ge in Hxy, Hyz. apply Z.ltb_ge. lia.
Qed.

(** *** The order of binary64 scores *)

(** Two finite floats of one sign compare by exponent, then by mantissa. *)
Definition lex_lt (e1 : Z) (m1 : positive) (e2 : Z) (m2 : positive) : Prop :=
  (e1 < e2)%Z \/ (e1 = e2 /\ (m1 < m2)%positive).

Lemma finite_pos_Lt (e1 : Z) (m1 : positive) (e2 : Z) (m2 : positive) :
  match (e1 ?= e2)%Z with
  | Eq => PosDef.Pos.compare_cont Eq m1 m2
  | Lt => Lt
  | Gt => Gt
  end = Lt <-> lex_lt e1 m1 e2 m2.
Proof.
  unfold lex_lt. change (PosDef.Pos.compare_cont Eq m1 m2) with (Pos.compare m1 m2).
  destruct (Z.compare_spec e1 e2); destruct (Pos.compare_spec m1 m2);
    split; intros; try discriminate; try reflexivity; try lia.
Qed.

Lemma finite_neg_Lt (e1 : Z) (m1 : positive) (e2 : Z) (m2 : positive) :
  match (e1 ?= e2)%Z with
  | Eq => CompOpp (PosDef.Pos.compare_cont Eq m1 m2)
  | Lt => Gt
  | Gt => Lt
  end = Lt <-> lex_lt e2 m2 e1 m1.
Proof.
  unfold lex_lt. change (PosDef.Pos.compare_cont Eq m1 m2) with (Pos.compare m1 m2).
  destruct (Z.compare_spec e1 e2); destruct (Pos.compare_spec m1 m2);
    cbn; split; intros; try discriminate; try reflexivity; try lia.
Qed.

Lemma SFltb_true_iff (x y : SpecFloat.spec_float) :
  SpecFloat.SFltb x y = true <-> SpecFloat.SFcompare x y = Some Lt.
Proof.
  unfold SpecFloat.SFltb.
  destruct (SpecFloat.SFcompare x y) as [[]|]; split; congruence.
Qed.

Ltac signs :=
  repeat match goal with
         | s : bool |- _ => destruct s
         end.

Lemma SFltb_irrefl (x : SpecFloat.spec_float) : SpecFloat.SFltb x x = false.
Proof.
  destruct (SpecFloat.SFltb x x) eqn:H; [|reflexivity].
  apply SFltb_true_iff in H.
  destruct x as [s|s| |s m e]; cbn in H; try discriminate.
  - destruct s; discriminate.
  - destruct s; injection H as H.
    + apply finite_neg_Lt in H. unfold lex_lt in H. lia.
    + apply finite_pos_Lt in H. unfold lex_lt in H. lia.
Qed.

Lemma SFltb_trans (x y z : SpecFloat.spec_float) :
  SpecFloat.SFltb x y = true -> SpecFloat.SFltb y z = true ->
  SpecFloat.SFltb x z = true.
Proof.
  rewrite !SFltb_true_iff.
  destruct x as [sx|sx| |sx mx ex], y as [sy|sy| |sy my ey], z as [sz|sz| |sz mz ez];
    cbn; try discriminate; signs; try discriminate; try reflexivity;
    intros H1 H2; injection H1 as H1; injection H2 as H2; f_equal;
    rewrite ?finite_pos_Lt, ?finite_neg_Lt in *; unfold lex_lt in *; try lia.
Qed.

Lemma SFltb_incomparable (x y z : SpecFloat.spec_float) :
  x <> SpecFloat.S754_nan -> y <> SpecFloat.S754_nan -> z <> SpecFloat.S754_nan ->
  SpecFloat.SFltb x y = false -> SpecFloat.SFltb y z = false ->
  SpecFloat.SFltb x z = false.
Proof.
  intros Hx Hy Hz H1 H2.
  destruct (SpecFloat.SFltb x z) eqn:H3; [|reflexivity]. exfalso.
  apply SFltb_true_iff in H3.
  assert (N1 : SpecFloat.SFcompare x y <> Some Lt)
    by (rewrite <- SFltb_true_iff; congruence).
  assert (N2 : SpecFloat.SFcompare y z <> Some Lt)
    by (rewrite <- SFltb_true_iff; congruence).
  clear H1 H2.
  destruct x as [sx|sx| |sx mx ex], y as [sy|sy| |sy my ey], z as [sz|sz| |sz mz ez];
    try congruence; cbn in *; signs; try discriminate; try congruence;
    injection H3 as H3;
    repeat match goal with
           | H : Some ?a <> Some Lt |- _ =>
               assert (a <> Lt) by congruence; clear H
           end;
    rewrite ?finite_pos_Lt, ?finite_neg_Lt in *; unfold lex_lt in *; lia.
Qed.

Lemma not_nan_Prim2SF (x : float) :
  PrimFloat.is_nan x = false -> Prim2SF x <> SpecFloat.S754_nan.
Proof.
  unfold PrimFloat.is_nan. rewrite FloatAxioms.eqb_spec. intros H Hnan.
  rewrite Hnan in H. discriminate H.
Qed.

(** [<] on binary64 numbers other than NaN is a strict weak order. *)
Lemma float_ltb_strict_weak_order :
  strict_weak_order_on (fun x => PrimFloat.is_nan x = false) PrimFloat.ltb.
Proof.
  split.
  - intros x _. rewrite FloatAxioms.ltb_spec. apply SFltb_irrefl.
  - intros x y z _ _ _. rewrite !FloatAxioms.ltb_spec. apply SFltb_trans.
  - intros x y z Hx Hy Hz. rewrite !FloatAxioms.ltb_spec.
    apply SFltb_incomparable; now apply not_nan_Prim2SF.
Qed.

Lemma StronglySorted_unique {A : Type} (R : A -> A -> Prop) (l1 l2 : list A) :
  (forall x y, R x y -> R y x -> False) ->
  StronglySorted R l1 -> StronglySorted R l2 -> Permutation l1 l2 -> l1 = l2.
Proof.
  intros Hasym. revert l2. induction l1 as [|a t1 IH]; intros l2 H1 H2 Hp.
  - apply Permutation_nil in Hp. now subst.
  - destruct l2 as [|b t2];
      [apply Permutation_sym, Permutation_nil in Hp; discriminate|].
    apply StronglySorted_inv in H1, H2.
    destruct H1 as [H1 Ha], H2 as [H2 Hb].
    assert (Heq : a = b).
    { assert (Hin_a : In a (b :: t2))
        by (apply (Permutation_in _ Hp); now left).
      assert (Hin_b : In b (a :: t1))
        by (apply (Permutation_in _ (Permutation_sym Hp)); now left).
      destruct Hin_a as [Hba|Hin_a]; [now symmetry|].
      destruct Hin_b as [Hab|Hin_b]; [exact Hab|].
      rewrite Forall_forall in Ha, Hb.
      exfalso. exact (Hasym a b (Ha b Hin_b) (Hb a Hin_a)). }
    subst b. f_equal. apply IH; [exact H1 | exact H2|].
    exact (Permutation_cons_inv Hp).
Qed.

Section SortedFacts.
Context {A K : Type}.
Variable lt : K -> K -> bool.
Variable key : A -> K.
Variable P : K -> Prop.
Hypothesis order : strict_weak_order_on P lt.

(** [x] may stand before [y] in an ascending stable order: its key is not the
    larger one, and on a tie [x] comes [first]. *)
Definition ascending (first : A -> A -> Prop) (x y : A) : Prop :=
  lt (key y) (key x) = false /\ (lt (key x) (key y) = false -> first x y).

(** The same for a descending stable order. *)
Definition descending (first : A -> A -> Prop) (x y : A) : Prop :=
  lt (key x) (key y) = false /\ (lt (key y) (key x) = false -> first x y).

Lemma insert_perm (x : A) (l : list A) : Permutation (insert lt key x l) (x :: l).
Proof.
  induction l as [|y l IH]; [reflexivity|].
  cbn. destruct (lt (key y) (key x)); [|reflexivity].
  rewrite IH. apply perm_swap.
Qed.

Lemma sort_stable_perm (xs : list A) : Permutation (sort_stable lt key xs) xs.
Proof.
  induction xs as [|x xs IH]; [reflexivity|].
  cbn. rewrite insert_perm. now constructor.
Qed.

Lemma sorted_perm (reverse : bool) (xs : list A) :
  Permutation (sorted lt key reverse xs) xs.
Proof.
  unfold sorted. destruct reverse; [|apply sort_stable_perm].
  rewrite <- Permutation_rev, sort_stable_perm. symmetry. apply Permutation_rev.
Qed.

Lemma lt_asym (x y : K) : P x -> P y -> lt x y = true -> lt y x = false.
Proof.
  intros Hx Hy Hxy. destruct (lt y x) eqn:Hyx; [|reflexivity].
  pose proof (lt_trans P lt order x y x Hx Hy Hx Hxy Hyx) as Hxx.
  rewrite (lt_irrefl P lt order x Hx) in Hxx. discriminate.
Qed.

Lemma insert_ascending (first : A -> A -> Prop) (x : A) (l : list A) :
  P (key x) -> Forall (fun y => P (key y)) l ->
  Forall (first x) l ->
  StronglySorted (ascending first) l ->
  StronglySorted (ascending first) (insert lt key x l).
Proof.
  intros Hx HP Hfirst Hs.
  induction Hs as [|y l Hs IH Hy]; [repeat constructor|].
  inversion HP as [|? ? HPy HPl]; subst.
  inversion Hfirst as [|? ? Hxy Hxl]; subst.
  cbn. destruct (lt (key y) (key x)) eqn:Hlt.
  - constructor; [now apply IH|].
    apply (Permutation_Forall (Permutation_sym (insert_perm x l))).
    constructor; [|exact Hy].
    split; [now apply lt_asym | congruence].
  - constructor; [now constructor|].
    constructor; [split; [exact Hlt | intros _; exact Hxy]|].
    rewrite Forall_forall in Hy, Hxl, HPl |- *. intros z Hz.
    split; [|intros _; now apply Hxl].
    destruct (Hy z Hz) as [Hzy _].
    exact (lt_incomparable P lt order (key z) (key y) (key x)
             (HPl z Hz) HPy Hx Hzy Hlt).
Qed.

(** The stable sort: ascending keys, and equal keys in their input order. *)
Lemma sort_stable_ascending (first : A -> A -> Prop) (xs : list A) :
  Forall (fun y => P (key y)) xs ->
  StronglySorted first xs ->
  StronglySorted (ascending first) (sort_stable lt key xs).
Proof.
  intros HP Hs. induction Hs as [|x xs Hs IH Hx]; [constructor|].
  inversion HP as [|? ? HPx HPxs]; subst.
  cbn. apply insert_ascending.
  - exact HPx.
  - apply (Permutation_Forall (Permutation_sym (sort_stable_perm xs))). exact HPxs.
  - apply (Permutation_Forall (Permutation_sym (sort_stable_perm xs))). exact Hx.
  - now apply IH.
Qed.

Lemma StronglySorted_rev (R : A -> A -> Prop) (l : list A) :
  StronglySorted R l -> StronglySorted (fun x y => R y x) (rev l).
Proof.
  induction 1 as [|x l Hs IH Hx]; [constructor|].
  cbn. apply StronglySorted_snoc; [exact IH|].
  apply Forall_rev. exact Hx.
Qed.

(** [sorted(xs, reverse=True, key=key)]: descending keys, and equal keys in
    their input order. *)
Lemma sorted_reverse_descending (first : A -> A -> Prop) (xs : list A) :
  Forall (fun y => P (key y)) xs ->
  StronglySorted first xs ->
  StronglySorted (descending first) (sorted lt key true xs).
Proof.
  intros HP Hs. unfold sorted.
  apply StronglySorted_rev with
    (R := ascending (fun x y => first y x)).
  apply sort_stable_ascending.
  - now apply Forall_rev.
  - now apply StronglySorted_rev.
Qed.

End SortedFacts.

(** ** [enumerate] *)

Lemma combine_seq_fst {A : Type} (xs : list A) (start : nat) :
  map fst (combine (seq start (List.length xs)) xs) = seq start (List.length xs).
Proof.
  revert start. induction xs as [|x xs IH]; intros start; [reflexivity|].
  cbn. now rewrite IH.
Qed.

Lemma combine_seq_nth {A : Type} (xs : list A) (start i : nat) (x : A) :
  In (i, x) (combine (seq start (List.length xs)) xs) <->
  start <= i /\ nth_error xs (i - start) = Some x.
Proof.
  revert start. induction xs as [|y xs IH]; intros start.
  - cbn. split; [tauto|]. intros [_ H]. destruct (i - start); discriminate.
  - cbn [List.length seq combine In]. rewrite IH. split.
    + intros [Heq|[Hle Hnth]].
      * injection Heq as <- <-. split; [lia|]. now rewrite Nat.sub_diag.
      * split; [lia|]. replace (i - start) with (S (i - S start)) by lia.
        exact Hnth.
    + intros [Hle Hnth].
      destruct (Nat.eq_dec i start) as [->|Hne].
      * rewrite Nat.sub_diag in Hnth. cbn in Hnth. left. congruence.
      * right. split; [lia|].
        replace (i - start) with (S (i - S start)) in Hnth by lia.
        exact Hnth.
Qed.

Lemma enumerate_fst {A : Type} (xs : list A) :
  map fst (enumerate xs) = seq 0 (List.length xs).
Proof. apply combine_seq_fst. Qed.

Lemma enumerate_In {A : Type} (xs : list A) (i : nat) (x : A) :
  In (i, x) (enumerate xs) <-> nth_error xs i = Some x.
Proof.
  unfold enumerate. rewrite combine_seq_nth, Nat.sub_0_r.
  split; [tauto | intros H; split; [lia | exact H]].
Qed.

Lemma enumerate_length {A : Type} (xs : list A) :
  List.length (enumerate xs) = List.length xs.
Proof.
  unfold enumerate. rewrite length_combine, length_seq. apply Nat.min_id.
Qed.

Definition by_position {A : Type} (x y : nat * A) : Prop := fst x < fst y.

Lemma combine_seq_sorted {A : Type} (xs : list A) (start : nat) :
  StronglySorted by_position (combine (seq start (List.length xs)) xs).
Proof.
  revert start. induction xs as [|x xs IH]; intros start; [constructor|].
  cbn. constructor; [apply IH|].
  apply Forall_forall. intros [i y] Hin.
  apply in_combine_l, in_seq in Hin. unfold by_position. cbn. lia.
Qed.

Lemma enumerate_sorted {A : Type} (xs : list A) :
  StronglySorted by_position (enumerate xs).
Proof. apply combine_seq_sorted. Qed.

Lemma enumerate_keys {A : Type} (P : A -> Prop) (xs : list A) :
  Forall P xs -> Forall (fun y => P (snd y)) (enumerate xs).
Proof.
  intros HP. apply Forall_forall. intros [i x] Hin.
  apply enumerate_In, nth_error_In in Hin.
  rewrite Forall_forall in HP. now apply HP.
Qed.

(** ** The candidate list and the loop *)

(** [x] ranks before [y]: its score is not the smaller one, and on equal
    scores its row index is the smaller one. *)
Definition ranks_before {score : Type} (lt : score -> score -> bool)
  (x y : nat * score) : Prop :=
  lt (snd x) (snd y) = false /\ (lt (snd y) (snd x) = false -> fst x < fst y).

(** The titles a run of [recommend] returns, in order, or the exception. *)
Definition titles (run : result (list recommendation) * state) : result (list string) :=
  match fst run with
  | Ok recs => Ok (map title recs)
  | Raise e => Raise e
  end.

(** The titles of the table rows at the given positions, in order. *)
Fixpoint titles_at (table : list movie_row) (positions : list nat) :
  result (list string) :=
  match positions with
  | [] => Ok []
  | i :: rest =>
      r <~ at_position table i ;;
      more <~ titles_at table rest ;;
      Ok (original_title r :: more)
  end.

Section RecommendFacts.
Variable score : Type.
Variable lt : score -> score -> bool.
Variable movies : DataFrame.

Lemma distances_perm (row : list score) :
  Permutation (distances score lt row) (enumerate row).
Proof. apply sorted_perm. Qed.

Lemma distances_length (row : list score) :
  List.length (distances score lt row) = List.length row.
Proof.
  rewrite (Permutation_length (distances_perm row)). apply enumerate_length.
Qed.

Lemma distances_positions (row : list score) :
  Permutation (map fst (distances score lt row)) (seq 0 (List.length row)).
Proof.
  rewrite <- enumerate_fst. apply Permutation_map, distances_perm.
Qed.

Lemma distances_sorted (P : score -> Prop) (row : list score) :
  strict_weak_order_on P lt -> Forall P row ->
  StronglySorted (ranks_before lt) (distances score lt row).
Proof.
  intros Horder HP.
  exact (sorted_reverse_descending lt snd P Horder by_position (enumerate row)
           (enumerate_keys P row HP) (enumerate_sorted row)).
Qed.

Lemma recommend_unfold (E : environment) (similarity : list (list score)) (movie_title : string)
  (index : nat) (row : list score) (st : state) :
  first_match movie_title (rows movies) = Some index ->
  nth_error similarity index = Some row ->
  recommend E score lt movies similarity movie_title st =
    for_each (recommendation_for E score movies)
             (slice_1_6 (distances score lt row)) st.
Proof.
  intros Hindex Hrow. unfold recommend, index_of_title, at_position, bind.
  rewrite Hindex. cbn [lift ret]. rewrite Hrow. reflexivity.
Qed.

(** One pass of the loop: the gateway cannot make it fail, only a position
    outside the table can. *)
Lemma recommendation_for_run (E : environment) (i : nat * score) (st : state) :
  match nth_error (rows movies) (fst i) with
  | Some r =>
      exists p t st',
        recommendation_for E score movies i st =
          (Ok {| title := original_title r; poster := p; trailer := t |}, st')
  | None => recommendation_for E score movies i st = (Raise IndexError, st)
  end.
Proof.
  unfold recommendation_for, at_position. unfold bind at 1.
  destruct (nth_error (rows movies) (fst i)) as [r|]; [|reflexivity].
  cbn [lift ret]. unfold bind.
  destruct (fetch_poster_never_raises E (imdb_id r) st) as (p & s1 & ->).
  destruct (fetch_trailer_never_raises E (imdb_id r) s1) as (t & s2 & ->).
  now exists p, t, s2.
Qed.

Lemma for_each_titles (E : environment) (l : list (nat * score)) (st : state) :
  titles (for_each (recommendation_for E score movies) l st) =
    titles_at (rows movies) (map fst l).
Proof.
  revert st. induction l as [|i l IH]; intros st; [reflexivity|].
  cbn [for_each map titles_at]. unfold bind at 1.
  pose proof (recommendation_for_run E i st) as Hrun.
  unfold at_position.
  destruct (nth_error (rows movies) (fst i)) as [r|].
  - destruct Hrun as (p & t & st' & ->). cbn [rbind].
    unfold bind. specialize (IH st'). unfold titles in IH |- *.
    destruct (for_each (recommendation_for E score movies) l st') as [[recs|e] st''];
      cbn [fst] in IH |- *; rewrite <- IH; reflexivity.
  - rewrite Hrun. reflexivity.
Qed.

Lemma titles_at_ok (table : list movie_row) (positions : list nat) :
  Forall (fun i => i < List.length table) positions ->
  exists ts, titles_at table positions = Ok ts /\
             List.length ts = List.length positions.
Proof.
  induction 1 as [|i positions Hi _ (ts & Hts & Hlen)].
  - now exists [].
  - cbn [titles_at]. unfold at_position.
    destruct (nth_error table i) as [r|] eqn:Hr.
    + cbn [rbind]. rewrite Hts. cbn [rbind].
      exists (original_title r :: ts). split; [reflexivity | cbn; lia].
    + apply nth_error_None in Hr. lia.
Qed.

(** C1.  For a title present in the table, with [index] its first matching
    row and [row] the matrix row at [index], whose entries [<] orders (a
    strict weak order, as on numbers other than NaN): the candidate list is
    a rearrangement of the enumerated row, in descending score order with
    equal scores in ascending row index, and it is the only arrangement of
    the enumerated row that is (so any stable sort gives it); [recommend] runs
    its loop over the
    entries 1 to 5 of that list, so the titles it returns are those of the
    table rows at these positions, in that order; and this outcome is the same
    for any two runs, whatever the provider replies and whatever is cached. *)
Theorem recommend_order (E : environment) (P : score -> Prop)
  (similarity : list (list score)) (movie_title : string) (index : nat) (row : list score) :
  strict_weak_order_on P lt -> Forall P row ->
  first_match movie_title (rows movies) = Some index ->
  nth_error similarity index = Some row ->
  Permutation (distances score lt row) (enumerate row) /\
  StronglySorted (ranks_before lt) (distances score lt row) /\
  (forall l, Permutation l (enumerate row) -> StronglySorted (ranks_before lt) l ->
             l = distances score lt row) /\
  (forall st,
     recommend E score lt movies similarity movie_title st =
       for_each (recommendation_for E score movies)
                (slice_1_6 (distances score lt row)) st) /\
  (forall st,
     titles (recommend E score lt movies similarity movie_title st) =
       titles_at (rows movies) (map fst (slice_1_6 (distances score lt row)))) /\
  (forall E' st st',
     titles (recommend E score lt movies similarity movie_title st) =
     titles (recommend E' score lt movies similarity movie_title st')).
Proof.
  intros Horder HP Hindex Hrow.
  split; [apply distances_perm|].
  split; [now apply distances_sorted with (P := P)|].
  split.
  { intros l Hperm Hsorted. apply StronglySorted_unique with (R := ranks_before lt).
    - intros x y [Hxy Hx] [Hyx Hy]. specialize (Hx Hyx). specialize (Hy Hxy). lia.
    - exact Hsorted.
    - now apply distances_sorted with (P := P).
    - rewrite Hperm. symmetry. apply distances_perm. }
  split; [intros st; now apply recommend_unfold with (index := index)|].
  assert (Htitles : forall E0 st,
             titles (recommend E0 score lt movies similarity movie_title st) =
             titles_at (rows movies) (map fst (slice_1_6 (distances score lt row)))).
  { intros E0 st.
    rewrite (recommend_unfold E0 similarity movie_title index row st Hindex Hrow).
    apply for_each_titles. }
  split; [intros st; apply Htitles|].
  intros E' st st'. now rewrite !Htitles.
Qed.

(** C4.  A title that no row of the table carries makes [recommend] raise
    [IndexError] at the lookup of line 223, before anything is sent or
    cached. *)
Theorem recommend_unknown_title_raises (E : environment)
  (similarity : list (list score))
  (movie_title : string) (st : state) :
  (forall r, In r (rows movies) -> original_title r <> movie_title) ->
  recommend E score lt movies similarity movie_title st = (Raise IndexError, st).
Proof.
  intros Habsent.
  assert (Hnone : first_match movie_title (rows movies) = None).
  { induction (rows movies) as [|r table IH]; [reflexivity|].
    cbn. destruct (String.eqb_spec (original_title r) movie_title) as [Heq|_].
    - exfalso. apply (Habsent r); [now left | exact Heq].
    - rewrite IH; [reflexivity|]. intros r' Hr'. apply Habsent. now right. }
  unfold recommend, index_of_title, bind. rewrite Hnone. reflexivity.
Qed.



Lemma In_firstn {A : Type} (n : nat) (l : list A) (x : A) :
  In x (firstn n l) -> In x l.
Proof.
  intros H. rewrite <- (firstn_skipn n l). apply in_or_app. now left.
Qed.

Lemma In_skipn {A : Type} (n : nat) (l : list A) (x : A) :
  In x (skipn n l) -> In x l.
Proof.
  intros H. rewrite <- (firstn_skipn n l). apply in_or_app. now right.
Qed.

Lemma NoDup_firstn {A : Type} (n : nat) (l : list A) :
  NoDup l -> NoDup (firstn n l).
Proof.
  intros H. rewrite <- (firstn_skipn n l) in H.
  exact (NoDup_app_remove_r _ _ H).
Qed.

Lemma NoDup_skipn {A : Type} (n : nat) (l : list A) :
  NoDup l -> NoDup (skipn n l).
Proof.
  intros H. rewrite <- (firstn_skipn n l) in H.
  exact (NoDup_app_remove_l _ _ H).
Qed.

Lemma slice_1_6_tl {A : Type} (l : list A) : slice_1_6 l = firstn 5 (tl l).
Proof. unfold slice_1_6. destruct l; reflexivity. Qed.

Lemma slice_1_6_length {A : Type} (l : list A) :
  List.length (slice_1_6 l) = Nat.min 5 (List.length l - 1).
Proof. unfold slice_1_6. now rewrite length_firstn, length_skipn. Qed.

Lemma distances_positions_NoDup (row : list score) :
  NoDup (map fst (distances score lt row)).
Proof.
  apply (Permutation_NoDup (Permutation_sym (distances_positions row))).
  apply seq_NoDup.
Qed.

Lemma slice_positions (row : list score) (i : nat) :
  In i (map fst (slice_1_6 (distances score lt row))) -> i < List.length row.
Proof.
  intros Hin. unfold slice_1_6 in Hin.
  rewrite <- firstn_map, <- skipn_map in Hin.
  apply In_firstn, In_skipn in Hin.
  apply (Permutation_in _ (distances_positions row)), in_seq in Hin. lia.
Qed.

(** When the slice of line 227 does skip the queried movie.  For a title
    present in the table, with [index] its first matching row and [row] the
    matrix row at [index] (entries ordered by a strict weak order): when the
    entry of [row] at [index] is not smaller than any entry of the row and
    every entry at a smaller column index is strictly smaller than it, the
    first entry of the candidate list is the queried movie itself, the loop
    runs over the five entries after it, and none of the rows it visits is
    row [index]. *)
Theorem recommend_skips_queried_row (E : environment) (P : score -> Prop)
  (similarity : list (list score)) (movie_title : string) (index : nat)
  (row : list score) (own : score) :
  strict_weak_order_on P lt -> Forall P row ->
  first_match movie_title (rows movies) = Some index ->
  nth_error similarity index = Some row ->
  nth_error row index = Some own ->
  (forall j other, nth_error row j = Some other -> lt own other = false) ->
  (forall j other, j < index -> nth_error row j = Some other -> lt other own = true) ->
  hd_error (distances score lt row) = Some (index, own) /\
  ~ In index (map fst (slice_1_6 (distances score lt row))) /\
  (forall st,
     recommend E score lt movies similarity movie_title st =
       for_each (recommendation_for E score movies)
                (firstn 5 (tl (distances score lt row))) st).
Proof.
  intros Horder HP Hindex Hrow Hown Hmax Hstrict.
  pose proof (distances_sorted P row Horder HP) as Hsorted.
  pose proof (distances_positions_NoDup row) as Hnodup.
  assert (Hin : In (index, own) (distances score lt row)).
  { apply (Permutation_in _ (Permutation_sym (distances_perm row))).
    now apply enumerate_In. }
  assert (Hsub : forall x, In x (distances score lt row) ->
                           nth_error row (fst x) = Some (snd x)).
  { intros [i x] Hx. apply enumerate_In.
    exact (Permutation_in _ (distances_perm row) Hx). }
  assert (Hhead : hd_error (distances score lt row) = Some (index, own)).
  { destruct (distances score lt row) as [|h t]; [destruct Hin|].
    cbn [hd_error]. f_equal.
    destruct Hin as [Heq|Hin]; [exact Heq|].
    apply StronglySorted_inv in Hsorted. destruct Hsorted as [_ Hh].
    rewrite Forall_forall in Hh. destruct (Hh _ Hin) as [Hnot Htie].
    cbn [fst snd] in Hnot, Htie.
    pose proof (Hsub h (or_introl eq_refl)) as Hnth.
    pose proof (Hstrict (fst h) (snd h) (Htie (Hmax _ _ Hnth)) Hnth) as Hlt.
    congruence. }
  split; [exact Hhead|]. split.
  - rewrite slice_1_6_tl.
    destruct (distances score lt row) as [|h t]; [discriminate|].
    cbn [hd_error] in Hhead. injection Hhead as ->.
    cbn [tl map fst] in Hnodup |- *. rewrite <- firstn_map.
    intros Hin'. apply In_firstn in Hin'.
    inversion Hnodup as [|? ? Hnot _]; subst. now apply Hnot.
  - intros st. rewrite <- slice_1_6_tl.
    now apply recommend_unfold with (index := index).
Qed.

(** C3.  For a title present in the table, with [index] its first matching
    row and [row] the matrix row at [index], the matrix having one column per
    movie (lines 161-162: built in the row order of the table), so that [row]
    has no more entries than the table has rows: [recommend] returns without
    raising, the rows it visits are pairwise distinct, the titles it returns
    are theirs, and their number is the smaller of 5 and the length of [row]
    less one; so fewer than 5 when [row] has fewer than 6 entries and
    exactly 5 otherwise. *)
Theorem recommend_count (E : environment) (similarity : list (list score))
  (movie_title : string) (index : nat) (row : list score) (st : state) :
  first_match movie_title (rows movies) = Some index ->
  nth_error similarity index = Some row ->
  List.length row <= List.length (rows movies) ->
  exists recs st',
    recommend E score lt movies similarity movie_title st = (Ok recs, st') /\
    List.length recs = Nat.min 5 (List.length row - 1) /\
    NoDup (map fst (slice_1_6 (distances score lt row))) /\
    titles_at (rows movies) (map fst (slice_1_6 (distances score lt row))) =
      Ok (map title recs) /\
    (List.length row < 6 -> List.length recs < 5) /\
    (6 <= List.length row -> List.length recs = 5).
Proof.
  intros Hindex Hrow Hfits.
  assert (Hvalid : Forall (fun i => i < List.length (rows movies))
                          (map fst (slice_1_6 (distances score lt row)))).
  { apply Forall_forall. intros i Hi. apply slice_positions in Hi. lia. }
  destruct (titles_at_ok _ _ Hvalid) as (ts & Hts & Hlen).
  rewrite (recommend_unfold E similarity movie_title index row st Hindex Hrow).
  pose proof (for_each_titles E (slice_1_6 (distances score lt row)) st) as Hrun.
  rewrite Hts in Hrun. unfold titles in Hrun.
  destruct (for_each (recommendation_for E score movies)
              (slice_1_6 (distances score lt row)) st) as [[recs|e] st'];
    cbn [fst] in Hrun; [|discriminate].
  injection Hrun as Hrecs.
  assert (Hcount : List.length recs = Nat.min 5 (List.length row - 1)).
  { rewrite <- (length_map title recs), Hrecs, Hlen, length_map,
      slice_1_6_length, distances_length. reflexivity. }
  exists recs, st'.
  split; [reflexivity|]. split; [exact Hcount|]. split.
  { unfold slice_1_6. rewrite <- firstn_map, <- skipn_map.
    apply NoDup_firstn, NoDup_skipn, distances_positions_NoDup. }
  split; [now rewrite Hrecs|].
  split; intros; lia.
Qed.

End RecommendFacts.

(** ** Concrete runs *)

(** A provider that never answers. *)
Definition offline : environment :=
  {| TMDB_API_KEY := "key";
     provider := fun _ _ => NoReply;
     repr := fun _ => "";
     format_float := fun _ => "" |}.

Definition movie (imdb title : string) : movie_row :=
  {| imdb_id := imdb; original_title := title; director := None |}.

Definition table (table_rows : list movie_row) : DataFrame :=
  {| columns := ["imdb_id"; "original_title"]; rows := table_rows |}.

(** Two movies with identical features: every similarity is 1.0. *)
Definition twins : DataFrame := table [movie "tt1" "A"; movie "tt2" "B"].

Definition twins_similarity : list (list float) := [[1; 1]; [1; 1]]%float.

(** C2.  The claim, and the comment of line 227 ([# skip the first (itself),
    take next 5]), say that the result never holds the queried movie.  The
    slice [distances[1:6]] drops the first entry by position, whichever row
    it is.  Two movies with identical features, queried for ["B"] (row 1):
    the candidate list starts with row 0, which ties with row 1 at 1.0 and
    comes first on the tie; row 0 is dropped and row 1, the queried movie
    itself, is returned. *)
Lemma recommend_returns_queried_row :
  index_of_title twins "B" = Ok 1 /\
  distances float PrimFloat.ltb [1; 1]%float = [(0, 1%float); (1, 1%float)] /\
  titles (recommend offline float PrimFloat.ltb twins twins_similarity "B" initial) =
    Ok ["B"].
Proof. repeat split; vm_compute; reflexivity. Qed.

(** A matrix row with a column for which the table has no row is not a
    similarity matrix of this table; [recommend] does not check for it, and
    there the loop asks the table for row 1 and raises [IndexError]. *)
Lemma recommend_raises_on_wide_row :
  index_of_title (table [movie "tt1" "A"]) "A" = Ok 0 /\
  List.length [1; 0.5]%float < 6 /\
  fst (recommend offline float PrimFloat.ltb (table [movie "tt1" "A"])
         [[1; 0.5]%float] "A" initial) = Raise IndexError.
Proof.
  split; [reflexivity|]. split; [cbn; lia|]. vm_compute. reflexivity.
Qed.

(** Four movies; the matrix rows of ["A"] and ["B"], scores as integers. *)
Definition four_movies : DataFrame :=
  table [movie "tt1" "A"; movie "tt2" "B"; movie "tt3" "C"; movie "tt4" "D"].

Definition four_similarity : list (list Z) := [[10; 9; 2; 5]; [9; 10; 2; 5]]%Z.

Lemma all_true (row : list Z) : Forall (fun _ : Z => True) row.
Proof. apply Forall_forall. intros; exact I. Qed.

(** The same four movies with the binary64 scores of the matrix rows of
    ["A"] and ["B"]. *)
Definition four_scores : list (list float) :=
  [[1; 0.9; 0.2; 0.5]; [0.9; 1; 0.2; 0.5]]%float.

Lemma recommend_order_witness :
  StronglySorted (ranks_before PrimFloat.ltb)
    (distances float PrimFloat.ltb [1; 0.9; 0.2; 0.5]%float) /\
  titles (recommend offline float PrimFloat.ltb four_movies four_scores "A" initial) =
    Ok ["B"; "D"; "C"].
Proof.
  destruct (recommend_order float PrimFloat.ltb four_movies offline
              (fun x => PrimFloat.is_nan x = false)
              four_scores "A" 0 [1; 0.9; 0.2; 0.5]%float
              float_ltb_strict_weak_order)
    as (_ & Hsorted & _ & _ & Htitles & _).
  - repeat constructor.
  - reflexivity.
  - reflexivity.
  - split; [exact Hsorted|]. rewrite Htitles. reflexivity.
Defined.

Lemma recommend_skips_queried_row_witness :
  hd_error (distances float PrimFloat.ltb [0.9; 1; 0.2; 0.5]%float) =
    Some (1, 1%float) /\
  ~ In 1 (map fst (slice_1_6 (distances float PrimFloat.ltb [0.9; 1; 0.2; 0.5]%float))).
Proof.
  destruct (recommend_skips_queried_row float PrimFloat.ltb four_movies offline
              (fun x => PrimFloat.is_nan x = false)
              four_scores "B" 1 [0.9; 1; 0.2; 0.5]%float 1%float
              float_ltb_strict_weak_order)
    as (Hhead & Hnot & _).
  - repeat constructor.
  - reflexivity.
  - reflexivity.
  - reflexivity.
  - intros j other H.
    do 4 (destruct j as [|j]; [injection H as <-; reflexivity|]).
    destruct j; discriminate.
  - intros j other Hj H.
    destruct j as [|j]; [injection H as <-; reflexivity | lia].
  - split; assumption.
Defined.

(** The four movies with their four-by-four matrix. *)
Definition four_square : list (list Z) :=
  [[10; 9; 2; 5]; [9; 10; 2; 5]; [2; 2; 10; 7]; [5; 5; 7; 10]]%Z.

Lemma recommend_count_witness :
  List.length [10; 9; 2; 5]%Z <= List.length (rows four_movies) /\
  exists recs st',
    recommend offline Z Z.ltb four_movies four_square "A" initial = (Ok recs, st') /\
    List.length recs = 3 /\
    map title recs = ["B"; "D"; "C"].
Proof.
  assert (Hfits : List.length [10; 9; 2; 5]%Z <= List.length (rows four_movies))
    by (cbn; lia).
  split; [exact Hfits|].
  destruct (recommend_count Z Z.ltb four_movies offline four_square "A" 0
              [10; 9; 2; 5]%Z initial eq_refl eq_refl Hfits)
    as (recs & st' & Hrun & Hlen & _ & Htitles & _).
  exists recs, st'. split; [exact Hrun|]. split; [exact Hlen|].
  change (titles_at (rows four_movies)
            (map fst (slice_1_6 (distances Z Z.ltb [10; 9; 2; 5]%Z))))
    with (Ok ["B"; "D"; "C"] : Py.result (list string)) in Htitles.
  now injection Htitles as <-.
Defined.

Lemma recommend_unknown_title_raises_witness :
  recommend offline Z Z.ltb four_movies four_similarity "Z" initial =
    (Raise IndexError, initial).
Proof.
  apply (recommend_unknown_title_raises Z Z.ltb four_movies offline).
  intros r [<-|[<-|[<-|[<-|[]]]]]; discriminate.
Defined.




End RecommenderFacts.

(* ================================================================== *)
(** * More on the recently-viewed list *)
(* ================================================================== *)

Module HistoryMore.
Import History HistoryFacts.

Lemma update_history_ends_with (imdb_id : string) (history : list string) :
  exists front, update_history imdb_id history = front ++ [imdb_id].
Proof.
  rewrite update_history_cases.
  destruct history as [|h0 rest]; [now exists []|].
  cbn [is_empty negb andb].
  destruct (String.eqb_spec (last (h0 :: rest) "") imdb_id) as [Hlast|_].
  - exists (removelast (h0 :: rest)). rewrite <- Hlast.
    apply app_removelast_last. discriminate.
  - destruct (List.length (h0 :: rest) <? 5)%nat; eauto.
Qed.

(** X1.  [update_history] is idempotent, and it leaves the identifier it was
    given in the last place of the list, whatever the list was before. *)
Theorem update_history_idempotent (imdb_id : string) (history : list string) :
  (exists front, update_history imdb_id history = front ++ [imdb_id]) /\
  update_history imdb_id (update_history imdb_id history) =
    update_history imdb_id history.
Proof.
  destruct (update_history_ends_with imdb_id history) as [front Hfront].
  split; [now exists front|].
  rewrite Hfront. unfold update_history at 1.
  rewrite last_last, String.eqb_refl.
  destruct (front ++ [imdb_id]) eqn:Hl; [|reflexivity].
  destruct front; discriminate.
Qed.

Lemma update_history_In (imdb_id x : string) (history : list string) :
  In x (update_history imdb_id history) -> x = imdb_id \/ In x history.
Proof.
  rewrite update_history_cases.
  destruct (negb (is_empty history) && (last history "" =? imdb_id)); [now right|].
  destruct (List.length history <? 5)%nat; intros Hin; apply in_app_or in Hin.
  - destruct Hin as [Hin|[<-|[]]]; auto.
  - destruct Hin as [Hin|[<-|[]]]; auto.
    right. destruct history; [destruct Hin | now right].
Qed.

(** X2.  The history never holds an identifier that was not passed to
    [update_history]; and after at least one call its last entry is the
    identifier of the latest call. *)
Theorem viewed_only_what_was_viewed (calls : list string) :
  (forall x, In x (viewed calls) -> In x calls) /\
  (forall earlier imdb_id, calls = earlier ++ [imdb_id] ->
     exists front, viewed calls = front ++ [imdb_id]).
Proof.
  split.
  - induction calls as [|c calls IH] using rev_ind; [intros x []|].
    intros x Hin. rewrite viewed_snoc in Hin.
    apply update_history_In in Hin. apply in_or_app.
    destruct Hin as [->|Hin]; [right; now left | left; now apply IH].
  - intros earlier imdb_id ->. rewrite viewed_snoc.
    apply update_history_ends_with.
Qed.

End HistoryMore.

(* ================================================================== *)
(** * More on the gateway: requests, memoised misses, trailers, the bundle *)
(* ================================================================== *)

Module GatewayMore.
Import Py Gateway GatewayFacts.

(** The state after one more request. *)
Definition with_request (s : state) (url : string) : state :=
  {| cache := cache s; sent := sent s ++ [url] |}.

Section WithEnvironment.
Variable E : environment.

(** A [try] whose body starts with a request and then only computes, and
    whose handler only computes: one request is sent, nothing else changes. *)
Lemma try_get_state {A : Type} (url : string) (k : Z * option json -> M A)
  (h : exn -> M A) (s : state) :
  (forall r, keeps_state (k r)) -> (forall e, keeps_state (h e)) ->
  snd (try_except (bind (http_get E url) k) h s) = with_request s url.
Proof.
  intros Hk Hh. unfold try_except, bind, http_get, with_request.
  destruct (provider E (List.length (sent s)) url) as [|status_code body].
  - apply Hh.
  - match goal with
    | |- snd (match ?run with _ => _ end) = ?s' =>
        assert (Hrun : snd run = s') by apply Hk;
        destruct run as [[a|e] s'']; cbn [snd] in Hrun; subst s''
    end.
    + reflexivity.
    + apply Hh.
Qed.

(** What an operation that resolves and then asks one endpoint leaves behind. *)
Definition after_resolving (imdb_id : string) (endpoint : json -> string)
  (s : state) : state :=
  match _resolve_tmdb_id_from_imdb E imdb_id s with
  | (Ok tmdb_id, s1) =>
      if truthy tmdb_id then with_request s1 (endpoint tmdb_id) else s1
  | (Raise _, s1) => s1
  end.

Lemma fetch_poster_state (imdb_id : string) (s : state) :
  snd (fetch_poster_by_imdb E imdb_id s) = after_resolving imdb_id (movie_url E) s.
Proof.
  unfold fetch_poster_by_imdb, after_resolving. unfold bind at 1.
  destruct (_resolve_tmdb_id_from_imdb E imdb_id s) as [[tmdb_id|e] s1];
    [|reflexivity].
  destruct (truthy tmdb_id); cbn [negb]; [|reflexivity].
  cbv zeta. fold (movie_url E tmdb_id). apply try_get_state; keeps.
Qed.

Lemma fetch_trailer_state (imdb_id : string) (s : state) :
  snd (fetch_trailer_by_imdb E imdb_id s) = after_resolving imdb_id (videos_url E) s.
Proof.
  unfold fetch_trailer_by_imdb, after_resolving. unfold bind at 1.
  destruct (_resolve_tmdb_id_from_imdb E imdb_id s) as [[tmdb_id|e] s1];
    [|reflexivity].
  destruct (truthy tmdb_id); cbn [negb]; [|reflexivity].
  cbv zeta. fold (videos_url E tmdb_id). apply try_get_state; keeps.
Qed.

Lemma get_movie_details_state (imdb_id director_name : string) (s : state) :
  snd (get_movie_details_by_imdb E imdb_id director_name s) =
    after_resolving imdb_id (details_url E) s.
Proof.
  unfold get_movie_details_by_imdb, after_resolving. unfold bind at 1.
  destruct (_resolve_tmdb_id_from_imdb E imdb_id s) as [[tmdb_id|e] s1];
    [|reflexivity].
  destruct (truthy tmdb_id); cbn [negb]; [|reflexivity].
  cbv zeta. fold (details_url E tmdb_id). apply try_get_state; keeps.
Qed.

(** Whatever a resolution returns is in the cache afterwards. *)
Lemma resolve_caches (imdb_id : string) (s s1 : state) (v : json) :
  _resolve_tmdb_id_from_imdb E imdb_id s = (Ok v, s1) ->
  cache_find imdb_id (cache s1) = Some v.
Proof.
  intros Hrun.
  destruct (cache_find imdb_id (cache s)) as [w|] eqn:Hfind.
  - rewrite (resolve_hit E imdb_id w s Hfind) in Hrun.
    injection Hrun as <- <-. apply cache_find_touch.
  - destruct (resolve_miss E imdb_id s Hfind) as (w & _ & Hmiss).
    rewrite Hmiss in Hrun. injection Hrun as <- <-.
    now apply cache_find_store.
Qed.

(** The requests of one resolution: none on a hit or for the empty
    identifier, the find request otherwise. *)
Lemma resolve_sent (imdb_id : string) (s : state) :
  sent (snd (_resolve_tmdb_id_from_imdb E imdb_id s)) =
    match cache_find imdb_id (cache s) with
    | Some _ => sent s
    | None => if imdb_id =? "" then sent s else sent s ++ [find_url E imdb_id]
    end.
Proof.
  destruct (cache_find imdb_id (cache s)) as [w|] eqn:Hfind.
  - now rewrite (resolve_hit E imdb_id w s Hfind).
  - destruct (resolve_miss E imdb_id s Hfind) as (w & _ & ->). reflexivity.
Qed.

(** The requests an operation adds: at most two, at most one for a cached
    identifier; and the identifier is cached afterwards. *)
Lemma after_resolving_sent (imdb_id : string) (endpoint : json -> string)
  (s : state) :
  exists added,
    sent (after_resolving imdb_id endpoint s) = sent s ++ added /\
    List.length added <= 2 /\
    (cache_find imdb_id (cache s) <> None -> List.length added <= 1).
Proof.
  unfold after_resolving.
  pose proof (resolve_sent imdb_id s) as Hsent.
  destruct (resolve_never_raises E imdb_id s) as (tmdb_id & s1 & Hrun).
  rewrite Hrun in Hsent |- *. cbn [snd] in Hsent.
  destruct (cache_find imdb_id (cache s)) as [w|].
  - destruct (truthy tmdb_id); cbn [with_request sent]; rewrite Hsent.
    + exists [endpoint tmdb_id]. split; [reflexivity|]. cbn. split; lia.
    + exists []. rewrite app_nil_r. split; [reflexivity|]. cbn. split; lia.
  - destruct (imdb_id =? ""); destruct (truthy tmdb_id);
      cbn [with_request sent]; rewrite Hsent.
    + exists [endpoint tmdb_id]. split; [reflexivity|].
      cbn. split; [lia | congruence].
    + exists []. rewrite app_nil_r. split; [reflexivity|].
      cbn. split; [lia | congruence].
    + exists [find_url E imdb_id; endpoint tmdb_id].
      rewrite <- app_assoc. split; [reflexivity|]. cbn. split; [lia | congruence].
    + exists [find_url E imdb_id]. split; [reflexivity|].
      cbn. split; [lia | congruence].
Qed.

Lemma after_resolving_cached (imdb_id : string) (endpoint : json -> string)
  (s : state) :
  cache_find imdb_id (cache (after_resolving imdb_id endpoint s)) <> None.
Proof.
  unfold after_resolving.
  destruct (resolve_never_raises E imdb_id s) as (tmdb_id & s1 & Hrun).
  rewrite Hrun. pose proof (resolve_caches imdb_id s s1 tmdb_id Hrun) as Hc.
  destruct (truthy tmdb_id); cbn [with_request cache]; congruence.
Qed.

(** X3.  Each of the poster, trailer and details operations first resolves the
    identifier and then sends exactly one request, to its own endpoint for the
    resolved id, when that id is truthy, and none when it is not; nothing else
    of the state changes.  With the resolution's own find request, an
    operation sends at most two requests, and at most one for a cached
    identifier. *)
Theorem operations_send_one_request (imdb_id director_name : string) (s : state) :
  snd (fetch_poster_by_imdb E imdb_id s) = after_resolving imdb_id (movie_url E) s /\
  snd (fetch_trailer_by_imdb E imdb_id s) = after_resolving imdb_id (videos_url E) s /\
  snd (get_movie_details_by_imdb E imdb_id director_name s) =
    after_resolving imdb_id (details_url E) s /\
  (forall endpoint,
     exists added,
       sent (after_resolving imdb_id endpoint s) = sent s ++ added /\
       List.length added <= 2 /\
       (cache_find imdb_id (cache s) <> None -> List.length added <= 1)).
Proof.
  split; [apply fetch_poster_state|].
  split; [apply fetch_trailer_state|].
  split; [apply get_movie_details_state|].
  intros endpoint. apply after_resolving_sent.
Qed.

(** X4.  A resolution that gave [None] (or any falsy id, such as 0) is
    remembered: while the entry is cached, a further resolution returns the
    same value and the poster, trailer and details operations return [None],
    all without sending anything, whatever the provider would answer by
    then. *)
Theorem unresolved_identifier_is_remembered (imdb_id director_name : string)
  (s s1 : state) (v : json) :
  _resolve_tmdb_id_from_imdb E imdb_id s = (Ok v, s1) ->
  truthy v = false ->
  (exists s2, _resolve_tmdb_id_from_imdb E imdb_id s1 = (Ok v, s2) /\
              sent s2 = sent s1) /\
  (exists s2, fetch_poster_by_imdb E imdb_id s1 = (Ok None, s2) /\
              sent s2 = sent s1) /\
  (exists s2, fetch_trailer_by_imdb E imdb_id s1 = (Ok None, s2) /\
              sent s2 = sent s1) /\
  (exists s2, get_movie_details_by_imdb E imdb_id director_name s1 = (Ok None, s2) /\
              sent s2 = sent s1).
Proof.
  intros Hrun Hfalsy.
  pose proof (resolve_hit E imdb_id v s1 (resolve_caches imdb_id s s1 v Hrun)) as Hhit.
  split; [eexists; split; [exact Hhit | reflexivity]|].
  split; [|split].
  - unfold fetch_poster_by_imdb, bind. rewrite Hhit, Hfalsy. cbn [negb].
    eexists; split; reflexivity.
  - unfold fetch_trailer_by_imdb, bind. rewrite Hhit, Hfalsy. cbn [negb].
    eexists; split; reflexivity.
  - unfold get_movie_details_by_imdb, bind. rewrite Hhit, Hfalsy. cbn [negb].
    eexists; split; reflexivity.
Qed.

(** ** The trailer loop *)

Definition is_dict (v : json) : bool :=
  match v with JObj _ => true | _ => false end.

(** The test of line 103. *)
Definition is_youtube_trailer (video : json) : bool :=
  match get video "type" JNull, get video "site" JNull with
  | Ok type, Ok site => eq_str type "Trailer" && eq_str site "YouTube"
  | _, _ => false
  end.

(** A video the loop passes over: an object that is no YouTube trailer. *)
Definition passed_over (video : json) : Prop :=
  is_dict video = true /\ is_youtube_trailer video = false.

Lemma first_trailer_cons (video : json) (rest : list json) :
  first_trailer E (video :: rest) =
    if is_dict video then
      if is_youtube_trailer video then
        key <~ getitem video "key" ;;
        Ok (Some ("https://youtu.be/" +++ str (repr E) key))
      else first_trailer E rest
    else Raise AttributeError.
Proof.
  destruct video; try reflexivity.
  cbn [first_trailer is_dict]. unfold is_youtube_trailer, get.
  destruct (dict_get items "type") as [type|];
    destruct (dict_get items "site") as [site|]; cbn [rbind];
    try (destruct (eq_str type "Trailer")); reflexivity.
Qed.

(** X5.  The trailer loop returns the URL of the first video, in the
    provider's order, that is a YouTube trailer, provided every video before
    it is an object; it returns [None] exactly when every video is an object
    and none is a YouTube trailer. *)
Theorem first_trailer_first_match (videos : list json) :
  (forall trailer,
     first_trailer E videos = Ok (Some trailer) <->
     exists before video after key,
       videos = before ++ video :: after /\
       Forall passed_over before /\
       is_youtube_trailer video = true /\
       getitem video "key" = Ok key /\
       trailer = "https://youtu.be/" +++ str (repr E) key) /\
  (first_trailer E videos = Ok None <-> Forall passed_over videos).
Proof.
  assert (Hdict : forall v, is_youtube_trailer v = true -> is_dict v = true).
  { intros [] H; try discriminate H. reflexivity. }
  induction videos as [|video rest [IHsome IHnone]].
  - split.
    + intros trailer. split; [discriminate|].
      intros (before & video & after & key & Heq & _). destruct before; discriminate.
    + split; [constructor | reflexivity].
  - rewrite first_trailer_cons. split.
    + intros trailer. split.
      * destruct (is_dict video) eqn:Hd; [|discriminate].
        destruct (is_youtube_trailer video) eqn:Hy.
        -- destruct (getitem video "key") as [key|e] eqn:Hkey; [|discriminate].
           cbn [rbind]. intros [= <-].
           exists [], video, rest, key. repeat split; auto.
        -- intros Hrest. apply IHsome in Hrest.
           destruct Hrest as (before & v & after & key & Heq & Hb & Hv & Hk & Hu).
           exists (video :: before), v, after, key.
           split; [cbn [app]; now rewrite Heq|].
           split; [constructor; [split|]; assumption|].
           auto.
      * intros (before & v & after & key & Heq & Hb & Hv & Hk & ->).
        destruct before as [|b before]; cbn [app] in Heq;
          injection Heq as Hhead Htail.
        -- subst v. rewrite (Hdict _ Hv), Hv, Hk. reflexivity.
        -- subst b. inversion Hb as [|? ? [Hd Hn] Hb']; subst. rewrite Hd, Hn.
           apply IHsome. exists before, v, after, key. auto.
    + split.
      * destruct (is_dict video) eqn:Hd; [|discriminate].
        destruct (is_youtube_trailer video) eqn:Hy.
        -- destruct (getitem video "key"); discriminate.
        -- intros Hrest. constructor; [now split | now apply IHnone].
      * intros Hall. inversion Hall as [|? ? [Hd Hn] Hrest]; subst.
        rewrite Hd, Hn. now apply IHnone.
Qed.

(** ** The cast, the director and the joined names of the bundle *)

(** An entry of the bundle's cast list was made from this item of the
    response. *)
Definition cast_entry_of (entry : cast_entry) (actor : json) : Prop :=
  get actor "name" JNull = Ok (name entry) /\
  get actor "character" JNull = Ok (character entry).

Lemma cast_details_of_spec (items : list json) (entries : list cast_entry) :
  cast_details_of E items = Ok entries -> Forall2 cast_entry_of entries items.
Proof.
  revert entries. induction items as [|actor items IH]; intros entries H.
  - injection H as <-. constructor.
  - cbn [cast_details_of] in H.
    apply rbind_Ok in H. destruct H as (n & Hn & H).
    apply rbind_Ok in H. destruct H as (c & Hc & H).
    apply rbind_Ok in H. destruct H as (hp & Hhp & H).
    apply rbind_Ok in H. destruct H as (pr & Hpr & H).
    apply rbind_Ok in H. destruct H as (more & Hmore & H).
    injection H as <-. constructor; [now split | now apply IH].
Qed.

Lemma chars_cast_details (s : string) (entries : list cast_entry) :
  cast_details_of E (chars s) = Ok entries -> entries = [].
Proof.
  destruct s as [|c s]; cbn; [now intros [= <-] | discriminate].
Qed.

(** X6.  When a bundle is built, its director is the caller's value (["N/A"]
    for the empty one), never anything of the response; its cast has at most
    five entries; and when the response's cast is a list, the entries are
    made, in order, from the first five items of that list. *)
Theorem details_cast_and_director (data : json) (director_name : string)
  (bundle : details) :
  build_details E data director_name = Ok bundle ->
  director bundle = (if director_name =? "" then "N/A" else director_name) /\
  List.length (cast bundle) <= 5 /\
  (forall credits actors,
     get data "credits" (JObj []) = Ok credits ->
     get credits "cast" (JArr []) = Ok (JArr actors) ->
     Forall2 cast_entry_of (cast bundle) (firstn 5 actors)).
Proof.
  unfold build_details. intros H.
  apply rbind_Ok in H. destruct H as (credits & Hcredits & H).
  apply rbind_Ok in H. destruct H as (listed & Hlisted & H).
  apply rbind_Ok in H. destruct H as (sliced & Hsliced & H).
  apply rbind_Ok in H. destruct H as (actors & Hactors & H).
  apply rbind_Ok in H. destruct H as (entries & Hentries & H).
  repeat match type of H with
         | rbind _ _ = Ok _ =>
             let a := fresh "a" in
             let Ha := fresh "Ha" in
             apply rbind_Ok in H; destruct H as (a & Ha & H)
         end.
  injection H as <-. cbn [director cast].
  split; [destruct (director_name =? ""); reflexivity|].
  assert (Hshape : (exists xs, listed = JArr xs /\ actors = firstn 5 xs) \/
                   entries = []).
  { destruct listed; try discriminate Hsliced; injection Hsliced as <-;
      injection Hactors as <-.
    - right. now apply chars_cast_details with (s := substring 0 5 s).
    - left. eauto. }
  split.
  - destruct Hshape as [(xs & Hxs & Hfirst) | Hnil];
      [subst listed actors | subst entries; cbn; lia].
    apply cast_details_of_spec, Forall2_length in Hentries.
    rewrite Hentries, length_firstn. lia.
  - intros credits' xs Hc Hl. rewrite Hcredits in Hc. injection Hc as <-.
    rewrite Hlisted in Hl. injection Hl as ->.
    injection Hsliced as <-. injection Hactors as <-.
    now apply cast_details_of_spec.
Qed.

Lemma join_strings (sep : string) (names : list string) :
  join sep (map JStr names) = Ok (String.concat sep names).
Proof.
  induction names as [|x names IH]; [reflexivity|].
  cbn [map join String.concat]. destruct names as [|y names]; [reflexivity|].
  cbn [map] in IH |- *. rewrite IH. reflexivity.
Qed.

Lemma join_only_strings (sep : string) (items : list json) (joined : string) :
  join sep items = Ok joined -> exists names, items = map JStr names.
Proof.
  revert joined. induction items as [|x items IH]; intros joined H.
  - now exists [].
  - destruct x; try discriminate H. cbn [join] in H.
    destruct items as [|y items]; [now exists [s]|].
    apply rbind_Ok in H. destruct H as (t & Ht & _).
    destruct (IH t Ht) as (names & Hnames).
    exists (s :: names). cbn [map]. now rewrite Hnames.
Qed.

Lemma joined_names_spec (data : json) (key field joined : string) :
  joined_names data key field = Ok joined ->
  (forall v, get data key JNull = Ok v -> truthy v = false -> joined = "N/A") /\
  (forall items, get data key JNull = Ok (JArr items) -> items <> [] ->
     exists names, fields_of field items = Ok (map JStr names) /\
                   joined = String.concat ", " names).
Proof.
  unfold joined_names. intros H.
  apply rbind_Ok in H. destruct H as (present & Hpresent & H).
  split.
  - intros v Hv Hfalsy. rewrite Hpresent in Hv. injection Hv as ->.
    rewrite Hfalsy in H. now injection H as <-.
  - intros items Hitems Hne. rewrite Hpresent in Hitems. injection Hitems as ->.
    assert (Hlisted : get data key (JArr []) = Ok (JArr items)).
    { destruct data; try discriminate Hpresent. unfold get in *.
      destruct (dict_get items0 key); [exact Hpresent | discriminate]. }
    destruct items as [|x items]; [congruence|]. cbn [truthy] in H.
    rewrite Hlisted in H. cbn [rbind iter] in H.
    apply rbind_Ok in H. destruct H as (values & Hvalues & H).
    destruct (join_only_strings _ _ _ H) as (names & ->).
    rewrite join_strings in H. injection H as <-.
    now exists names.
Qed.

(** X7.  When a bundle is built: its [genres] text is ["N/A"] when the
    response has no [genres] or an empty one, and for a non-empty list it is
    the items' [name] values, which are then all strings, joined by a comma
    and a blank in the provider's order; likewise [available_in] for the
    [english_name] values of [spoken_languages]. *)
Theorem details_joined_names (data : json) (director_name : string)
  (bundle : details) :
  build_details E data director_name = Ok bundle ->
  ((forall v, get data "genres" JNull = Ok v -> truthy v = false ->
              genres bundle = "N/A") /\
   (forall items, get data "genres" JNull = Ok (JArr items) -> items <> [] ->
      exists names, fields_of "name" items = Ok (map JStr names) /\
                    genres bundle = String.concat ", " names)) /\
  ((forall v, get data "spoken_languages" JNull = Ok v -> truthy v = false ->
              available_in bundle = "N/A") /\
   (forall items, get data "spoken_languages" JNull = Ok (JArr items) ->
      items <> [] ->
      exists names, fields_of "english_name" items = Ok (map JStr names) /\
                    available_in bundle = String.concat ", " names)).
Proof.
  unfold build_details. intros H.
  repeat match type of H with
         | rbind _ _ = Ok _ =>
             let a := fresh "a" in
             let Ha := fresh "Ha" in
             apply rbind_Ok in H; destruct H as (a & Ha & H)
         end.
  injection H as <-. cbn [genres available_in].
  split; now apply joined_names_spec.
Qed.

End WithEnvironment.

(** ** Concrete runs *)

Lemma unresolved_identifier_is_remembered_witness :
  _resolve_tmdb_id_from_imdb RecommenderFacts.offline "tt1" initial =
    (Ok JNull, with_request {| cache := [("tt1", JNull)]; sent := [] |}
                 (find_url RecommenderFacts.offline "tt1")) /\
  exists s2,
    fetch_poster_by_imdb RecommenderFacts.offline "tt1"
      (with_request {| cache := [("tt1", JNull)]; sent := [] |}
         (find_url RecommenderFacts.offline "tt1")) = (Ok None, s2) /\
    sent s2 = [find_url RecommenderFacts.offline "tt1"].
Proof.
  split; [reflexivity|].
  exact (proj1 (proj2 (unresolved_identifier_is_remembered RecommenderFacts.offline
                         "tt1" "" initial _ JNull eq_refl eq_refl))).
Defined.

(** A detail record with six cast members and two genres. *)
Definition actor (actor_name role : string) : json :=
  JObj [("name", JStr actor_name); ("character", JStr role);
        ("profile_path", JNull)].

Definition crowded_detail : json :=
  JObj [("budget", JInt 160000000);
        ("genres", JArr [JObj [("id", JInt 28); ("name", JStr "Action")];
                         JObj [("id", JInt 878); ("name", JStr "Science Fiction")]]);
        ("credits",
         JObj [("cast", JArr [actor "A1" "R1"; actor "A2" "R2"; actor "A3" "R3";
                              actor "A4" "R4"; actor "A5" "R5"; actor "A6" "R6"])])].

Lemma details_cast_and_director_witness :
  exists bundle,
    build_details answering crowded_detail "Christopher Nolan" = Ok bundle /\
    director bundle = "Christopher Nolan" /\
    map name (cast bundle) = [JStr "A1"; JStr "A2"; JStr "A3"; JStr "A4"; JStr "A5"] /\
    List.length (cast bundle) <= 5.
Proof.
  eexists. split; [cbv; reflexivity|].
  split; [reflexivity|]. split; [reflexivity|].
  exact (proj1 (proj2 (details_cast_and_director answering crowded_detail
                         "Christopher Nolan" _ eq_refl))).
Defined.

Lemma details_joined_names_witness :
  exists bundle,
    build_details answering crowded_detail "" = Ok bundle /\
    genres bundle = "Action, Science Fiction" /\
    available_in bundle = "N/A" /\
    exists names,
      fields_of "name"
        [JObj [("id", JInt 28); ("name", JStr "Action")];
         JObj [("id", JInt 878); ("name", JStr "Science Fiction")]] =
        Ok (map JStr names) /\
      genres bundle = String.concat ", " names.
Proof.
  eexists. split; [cbv; reflexivity|].
  split; [reflexivity|]. split; [reflexivity|].
  apply (proj2 (proj1 (details_joined_names answering crowded_detail "" _ eq_refl))).
  - reflexivity.
  - discriminate.
Defined.

End GatewayMore.

(* ================================================================== *)
(** * The trending list (app.py, lines 254-274) *)
(* ================================================================== *)

Module Trending.
Import Py Gateway.

(** One entry of the list that [get_trending_movies] returns. *)
Record trending_entry : Type := {
  title : json;
  poster : option string;
  tmdb_id : json
}.

Section WithEnvironment.
Variable E : environment.

(** The URL of line 257. *)
Definition trending_url : string :=
  "https://api.themoviedb.org/3/trending/movie/week?api_key=" +++ TMDB_API_KEY E.

(** The loop of lines 263-268. *)
Fixpoint trending_list_of (trending : list json) : result (list trending_entry) :=
  match trending with
  | [] => Ok []
  | movie :: rest =>
      title <~ get movie "title" JNull ;;
      has_poster <~ get movie "poster_path" JNull ;;
      poster <~ (if truthy has_poster then
                   poster_path <~ get movie "poster_path" JNull ;;
                   Ok (Some ("https://image.tmdb.org/t/p/w500" +++
                             str (repr E) poster_path))
                 else Ok None) ;;
      tmdb_id <~ get movie "id" JNull ;;
      more <~ trending_list_of rest ;;
      Ok ({| title := title; poster := poster; tmdb_id := tmdb_id |} :: more)
  end.

Definition get_trending_movies : M (list trending_entry) :=
  try_except
    (let url := trending_url in
     response <- http_get E url ;;
     if (fst response =? 200)%Z then
       data <- lift (response_json response) ;;
       results <- lift (get data "results" (JArr [])) ;;
       trending <- lift (slice5 results) ;;
       movies <- lift (iter trending) ;;
       trending_list <- lift (trending_list_of movies) ;;
       ret trending_list
     else ret [])
    (fun _ => ret []).

End WithEnvironment.

End Trending.

(* ================================================================== *)
(** * Properties of the trending list *)
(* ================================================================== *)

Module TrendingFacts.
Import Py Gateway GatewayFacts GatewayMore Trending.

Section WithEnvironment.
Variable E : environment.

(** An entry of the returned list was made from this item of the response. *)
Definition trending_entry_of (entry : trending_entry) (movie : json) : Prop :=
  get movie "title" JNull = Ok (title entry) /\
  get movie "id" JNull = Ok (tmdb_id entry) /\
  exists poster_path,
    get movie "poster_path" JNull = Ok poster_path /\
    poster entry =
      if truthy poster_path
      then Some ("https://image.tmdb.org/t/p/w500" +++ str (repr E) poster_path)
      else None.

Lemma trending_list_of_spec (movies : list json) (entries : list trending_entry) :
  trending_list_of E movies = Ok entries -> Forall2 trending_entry_of entries movies.
Proof.
  revert entries. induction movies as [|movie movies IH]; intros entries H.
  - injection H as <-. constructor.
  - cbn [trending_list_of] in H.
    apply rbind_Ok in H. destruct H as (t & Ht & H).
    apply rbind_Ok in H. destruct H as (hp & Hhp & H).
    apply rbind_Ok in H. destruct H as (p & Hp & H).
    apply rbind_Ok in H. destruct H as (i & Hi & H).
    apply rbind_Ok in H. destruct H as (more & Hmore & H).
    injection H as <-. constructor; [|now apply IH].
    split; [exact Ht|]. split; [exact Hi|]. exists hp. split; [exact Hhp|].
    cbn [poster]. destruct (truthy hp).
    + rewrite Hhp in Hp. cbn [rbind] in Hp. now injection Hp as <-.
    + now injection Hp as <-.
Qed.

Lemma trending_list_of_dicts (movies : list json) :
  Forall (fun movie => is_dict movie = true) movies ->
  exists entries, trending_list_of E movies = Ok entries.
Proof.
  induction 1 as [|movie movies Hd _ (more & Hmore)]; [now exists []|].
  destruct movie; try discriminate Hd.
  cbn [trending_list_of]. unfold get.
  destruct (dict_get items "title"); destruct (dict_get items "poster_path") as [p|];
    destruct (dict_get items "id"); cbn [rbind truthy];
    try destruct (truthy p); cbn [rbind]; rewrite Hmore; cbn [rbind]; eauto.
Qed.

Lemma trending_list_of_not_dict (movies : list json) :
  Exists (fun movie => is_dict movie = false) movies ->
  exists e, trending_list_of E movies = Raise e.
Proof.
  induction 1 as [movie movies Hd|movie movies _ (e & He)].
  - destruct movie; try discriminate Hd; now exists AttributeError.
  - cbn [trending_list_of].
    destruct (get movie "title" JNull); cbn [rbind]; [|eauto].
    destruct (get movie "poster_path" JNull) as [p|]; cbn [rbind]; [|eauto].
    destruct (if truthy p then _ else _); cbn [rbind]; [|eauto].
    destruct (get movie "id" JNull); cbn [rbind]; [|eauto].
    rewrite He. cbn [rbind]. eauto.
Qed.

Lemma chars_trending_list (s : string) (entries : list trending_entry) :
  trending_list_of E (chars s) = Ok entries -> entries = [].
Proof.
  destruct s as [|c s]; cbn; [now intros [= <-] | discriminate].
Qed.

Lemma get_trending_movies_state (s : state) :
  snd (get_trending_movies E s) = with_request s (trending_url E).
Proof.
  unfold get_trending_movies. cbv zeta. apply try_get_state; keeps.
Qed.

(** Where a non-empty trending list comes from. *)
Lemma get_trending_movies_from_reply (s s' : state) (entries : list trending_entry) :
  get_trending_movies E s = (Ok entries, s') ->
  entries = [] \/
  exists data items,
    provider E (List.length (sent s)) (trending_url E) = Reply 200 (Some data) /\
    get data "results" (JArr []) = Ok (JArr items) /\
    trending_list_of E (firstn 5 items) = Ok entries.
Proof.
  unfold get_trending_movies. cbv zeta.
  unfold try_except, bind, http_get. intros Hrun.
  destruct (provider E (List.length (sent s)) (trending_url E))
    as [|status_code body]; [left; now injection Hrun as <- _|].
  cbn [fst snd] in Hrun.
  destruct (Z.eqb_spec status_code 200) as [->|_];
    [|left; now injection Hrun as <- _].
  destruct body as [data|]; [|left; now injection Hrun as <- _].
  cbn [response_json snd lift ret] in Hrun.
  destruct (get data "results" (JArr [])) as [results|e] eqn:Hresults;
    [|left; now injection Hrun as <- _].
  cbn [lift ret] in Hrun.
  destruct results as [| | | |t|items|]; cbn [slice5 lift raise] in Hrun;
    try (left; now injection Hrun as <- _).
  - cbn [iter lift ret] in Hrun.
    destruct (trending_list_of E (chars (substring 0 5 t))) as [l|e] eqn:Hl;
      cbn [lift ret raise] in Hrun; injection Hrun as <- _; [|now left].
    left. now apply chars_trending_list with (s := substring 0 5 t).
  - cbn [iter lift ret] in Hrun.
    destruct (trending_list_of E (firstn 5 items)) as [l|e] eqn:Hl;
      cbn [lift ret raise] in Hrun; injection Hrun as <- _; [|now left].
    right. now exists data, items.
Qed.

(** X8.  [get_trending_movies] never raises; it sends exactly one request, to
    the weekly-trending endpoint, and leaves the resolver's cache alone; the
    list it returns has at most five entries (so the five columns of line 301
    suffice), and is empty when the request failed. *)
Theorem get_trending_movies_bounded (s : state) :
  exists entries,
    get_trending_movies E s = (Ok entries, with_request s (trending_url E)) /\
    List.length entries <= 5 /\
    (failed (provider E (List.length (sent s)) (trending_url E)) -> entries = []).
Proof.
  assert (Hnever : never_raises (get_trending_movies E)).
  { apply try_except_never_raises. intros _. apply ret_never_raises. }
  destruct (Hnever s) as (entries & s' & Hrun).
  pose proof (get_trending_movies_state s) as Hstate.
  rewrite Hrun in Hstate. cbn [snd] in Hstate. subst s'.
  exists entries. split; [exact Hrun|].
  destruct (get_trending_movies_from_reply _ _ _ Hrun)
    as [->|(data & items & Hreply & _ & Hlist)].
  - split; [cbn; lia | reflexivity].
  - split.
    + apply trending_list_of_spec, Forall2_length in Hlist.
      rewrite Hlist, length_firstn. lia.
    + intros Hfailed. rewrite Hreply in Hfailed.
      destruct Hfailed as [Hf|Hf]; congruence.
Qed.

(** X9.  When the trending request is answered with status 200 and a body
    whose [results] is a list: if the first five items of the list are all
    objects, the entries returned are made from them, one each and in the
    provider's order (later items are ignored); if one of the first five is
    not an object, the whole list comes back empty. *)
Theorem get_trending_movies_first_five (s : state) (data : json) (items : list json) :
  provider E (List.length (sent s)) (trending_url E) = Reply 200 (Some data) ->
  get data "results" (JArr []) = Ok (JArr items) ->
  (Forall (fun movie => is_dict movie = true) (firstn 5 items) ->
   exists entries,
     fst (get_trending_movies E s) = Ok entries /\
     Forall2 trending_entry_of entries (firstn 5 items)) /\
  (Exists (fun movie => is_dict movie = false) (firstn 5 items) ->
   fst (get_trending_movies E s) = Ok []).
Proof.
  intros Hreply Hresults.
  assert (Hrun : fst (get_trending_movies E s) =
                 match trending_list_of E (firstn 5 items) with
                 | Ok entries => Ok entries
                 | Raise _ => Ok []
                 end).
  { unfold get_trending_movies. cbv zeta.
    unfold try_except, bind, http_get. rewrite Hreply. cbn [fst snd].
    change (200 =? 200)%Z with true. cbn [response_json snd lift ret].
    rewrite Hresults. cbn [lift ret slice5 iter].
    destruct (trending_list_of E (firstn 5 items)); reflexivity. }
  split.
  - intros Hdicts. destruct (trending_list_of_dicts _ Hdicts) as (entries & Hlist).
    exists entries. rewrite Hrun, Hlist. split; [reflexivity|].
    now apply trending_list_of_spec.
  - intros Hbad. destruct (trending_list_of_not_dict _ Hbad) as (e & Hlist).
    now rewrite Hrun, Hlist.
Qed.

End WithEnvironment.

(** A provider whose trending answer lists six movies. *)
Definition weekly (n : Z) (t : string) : json :=
  JObj [("id", JInt n); ("title", JStr t); ("poster_path", JNull)].

Definition six_items : list json :=
  [weekly 1 "T1"; weekly 2 "T2"; weekly 3 "T3"; weekly 4 "T4"; weekly 5 "T5";
   weekly 6 "T6"].

Definition trending_now : environment :=
  {| TMDB_API_KEY := "key";
     provider := fun _ _ => Reply 200 (Some (JObj [("results", JArr six_items)]));
     repr := fun _ => "";
     format_float := fun _ => "" |}.

Lemma get_trending_movies_first_five_witness :
  exists entries,
    fst (get_trending_movies trending_now initial) = Ok entries /\
    Forall2 (trending_entry_of trending_now) entries (firstn 5 six_items).
Proof.
  apply (proj1 (get_trending_movies_first_five trending_now initial
                  (JObj [("results", JArr six_items)]) six_items eq_refl eq_refl)).
  repeat constructor.
Defined.

End TrendingFacts.

(* ================================================================== *)
(** * More on the recommender: what it returns and what it sends *)
(* ================================================================== *)

Module RecommenderMore.
Import Py Gateway Loader Recommender GatewayFacts GatewayMore RecommenderFacts.

(** From [s] to [s'] at most [n] requests were added, and none removed. *)
Definition grows_by (n : nat) (s s' : state) : Prop :=
  exists added, sent s' = sent s ++ added /\ List.length added <= n.

Lemma grows_by_refl (n : nat) (s : state) : grows_by n s s.
Proof. exists []. rewrite app_nil_r. split; [reflexivity | cbn; lia]. Qed.

Lemma grows_by_trans (n m : nat) (s1 s2 s3 : state) :
  grows_by n s1 s2 -> grows_by m s2 s3 -> grows_by (n + m) s1 s3.
Proof.
  intros (a & Ha & Hla) (b & Hb & Hlb). exists (a ++ b).
  rewrite Hb, Ha, <- app_assoc, length_app. split; [reflexivity | lia].
Qed.

Lemma grows_by_le (n m : nat) (s s' : state) :
  n <= m -> grows_by n s s' -> grows_by m s s'.
Proof. intros Hle (a & Ha & Hla). exists a. split; [exact Ha | lia]. Qed.

Lemma titles_at_shape (table : list movie_row) (positions : list nat) :
  match titles_at table positions with
  | Ok ts =>
      List.length ts = List.length positions /\
      Forall (fun t => exists row, In row table /\ t = original_title row) ts
  | Raise e => e = IndexError
  end.
Proof.
  induction positions as [|i positions IH]; [split; [reflexivity | constructor]|].
  cbn [titles_at]. unfold at_position.
  destruct (nth_error table i) as [row|] eqn:Hrow; cbn [rbind]; [|reflexivity].
  destruct (titles_at table positions) as [ts|e]; cbn [rbind]; [|exact IH].
  destruct IH as [Hlen Hall]. split; [cbn; now rewrite Hlen|].
  constructor; [|exact Hall]. exists row. split; [|reflexivity].
  now apply nth_error_In with (n := i).
Qed.

Section RecommendMore.
Variable E : environment.
Variable score : Type.
Variable lt : score -> score -> bool.
Variable movies : DataFrame.

(** One pass of the loop sends at most three requests: the poster fetch at
    most two, and the trailer fetch, which finds the identifier cached by
    then, at most one. *)
Lemma recommendation_for_grows (i : nat * score) (s : state) :
  grows_by 3 s (snd (recommendation_for E score movies i s)).
Proof.
  unfold recommendation_for, at_position. unfold bind at 1.
  destruct (nth_error (rows movies) (fst i)) as [r|]; [|apply grows_by_refl].
  cbn [lift ret]. unfold bind.
  pose proof (fetch_poster_state E (imdb_id r) s) as Hp.
  destruct (fetch_poster_never_raises E (imdb_id r) s) as (p & s1 & Hrun1).
  rewrite Hrun1 in Hp |- *. cbn [snd] in Hp.
  pose proof (fetch_trailer_state E (imdb_id r) s1) as Ht.
  destruct (fetch_trailer_never_raises E (imdb_id r) s1) as (t & s2 & Hrun2).
  rewrite Hrun2 in Ht |- *. cbn [snd] in Ht |- *.
  apply (grows_by_trans 2 1 s s1 s2).
  - destruct (after_resolving_sent E (imdb_id r) (movie_url E) s)
      as (added & Ha & Hl & _).
    exists added. rewrite Hp. split; assumption.
  - destruct (after_resolving_sent E (imdb_id r) (videos_url E) s1)
      as (added & Ha & _ & Hl).
    exists added. rewrite Ht. split; [exact Ha|]. apply Hl.
    rewrite Hp. apply after_resolving_cached.
Qed.

Lemma for_each_grows (l : list (nat * score)) (s : state) :
  grows_by (3 * List.length l) s
    (snd (for_each (recommendation_for E score movies) l s)).
Proof.
  revert s. induction l as [|i l IH]; intros s; [apply grows_by_refl|].
  cbn [for_each List.length]. unfold bind at 1.
  pose proof (recommendation_for_grows i s) as Hi.
  destruct (recommendation_for E score movies i s) as [[rec|e] s1];
    cbn [snd] in Hi |- *.
  - unfold bind. specialize (IH s1).
    destruct (for_each (recommendation_for E score movies) l s1) as [[recs|e] s2];
      cbn [snd] in IH |- *;
      apply (grows_by_le (3 + 3 * List.length l)); try lia;
      now apply (grows_by_trans 3 (3 * List.length l) s s1 s2).
  - apply (grows_by_le 3); [lia | exact Hi].
Qed.

(** X10.  Whatever the table, the matrix, the title and the provider:
    [recommend] raises nothing but [IndexError]; and when it returns, it
    returns at most five recommendations, each carrying the title of a row
    of the movie table. *)
Theorem recommend_returns_table_titles (similarity : list (list score))
  (movie_title : string) (st : state) :
  match fst (recommend E score lt movies similarity movie_title st) with
  | Ok recs =>
      List.length recs <= 5 /\
      Forall (fun rec => exists row, In row (rows movies) /\
                                     title rec = original_title row) recs
  | Raise e => e = IndexError
  end.
Proof.
  destruct (first_match movie_title (rows movies)) as [index|] eqn:Hindex.
  - destruct (nth_error similarity index) as [row|] eqn:Hrow.
    + rewrite (recommend_unfold score lt movies E similarity movie_title index row st
                 Hindex Hrow).
      pose proof (for_each_titles score movies E (slice_1_6 (distances score lt row)) st)
        as Hrun.
      pose proof (titles_at_shape (rows movies)
                    (map fst (slice_1_6 (distances score lt row)))) as Hshape.
      rewrite <- Hrun in Hshape. unfold titles in Hshape.
      destruct (fst (for_each (recommendation_for E score movies)
                       (slice_1_6 (distances score lt row)) st)) as [recs|e];
        [|exact Hshape].
      destruct Hshape as [Hlen Hall]. split.
      * rewrite length_map in Hlen. rewrite Hlen, length_map, slice_1_6_length. lia.
      * rewrite Forall_map in Hall. exact Hall.
    + unfold recommend, index_of_title, at_position, bind.
      rewrite Hindex. cbn [lift ret]. rewrite Hrow. reflexivity.
  - unfold recommend, index_of_title, bind. rewrite Hindex. reflexivity.
Qed.

(** X11.  One call of [recommend] sends at most fifteen requests, three for
    each movie it visits, and removes none from the record; it sends none
    when the title or its matrix row is missing. *)
Theorem recommend_sends_at_most_15 (similarity : list (list score))
  (movie_title : string) (st : state) :
  (exists added,
     sent (snd (recommend E score lt movies similarity movie_title st)) =
       sent st ++ added /\
     List.length added <= 15) /\
  (forall index,
     first_match movie_title (rows movies) = None \/
     (first_match movie_title (rows movies) = Some index /\
      nth_error similarity index = None) ->
     snd (recommend E score lt movies similarity movie_title st) = st).
Proof.
  split.
  - destruct (first_match movie_title (rows movies)) as [index|] eqn:Hindex.
    + destruct (nth_error similarity index) as [row|] eqn:Hrow.
      * rewrite (recommend_unfold score lt movies E similarity movie_title index row
                   st Hindex Hrow).
        apply (grows_by_le (3 * List.length (slice_1_6 (distances score lt row)))).
        -- rewrite slice_1_6_length. lia.
        -- apply for_each_grows.
      * unfold recommend, index_of_title, at_position, bind.
        rewrite Hindex. cbn [lift ret]. rewrite Hrow. apply (grows_by_refl 15).
    + unfold recommend, index_of_title, bind. rewrite Hindex.
      apply (grows_by_refl 15).
  - intros index [Hnone|[Hindex Hrow]];
      unfold recommend, index_of_title, at_position, bind.
    + now rewrite Hnone.
    + rewrite Hindex. cbn [lift ret]. now rewrite Hrow.
Qed.

End RecommendMore.

End RecommenderMore.

(* ================================================================== *)
(** * The page: surprise pick, search mode and sidebar
      (app.py, lines 238-245, 341-357, 424 and 531-536) *)
(* ================================================================== *)

Module Surprise.
Import Py Gateway Loader.

(** [movies.sample(1).iloc[0]].  The random source is the number [draw]; the
    row drawn is the one at position [draw] modulo the number of rows, so
    every row can be drawn and nothing else can.  On an empty table
    [sample(1)] raises [ValueError]: [None]. *)
Definition sample1 (movies : DataFrame) (draw : nat) : option movie_row :=
  match rows movies with
  | [] => None
  | _ :: _ => nth_error (rows movies) (draw mod List.length (rows movies))
  end.

(** The dictionary that [get_random_movie] returns. *)
Record random_movie : Type := {
  title : string;
  poster : option string;
  trailer : option string;
  imdb_id : string
}.

(** [None] when [sample(1)] raises, before anything else happens; otherwise
    the rest of the function as a computation on the gateway state. *)
Definition get_random_movie (E : environment) (movies : DataFrame) (draw : nat) :
  option (M random_movie) :=
  match sample1 movies draw with
  | None => None
  | Some random_row =>
      Some (poster <- fetch_poster_by_imdb E (Loader.imdb_id random_row) ;;
            trailer <- fetch_trailer_by_imdb E (Loader.imdb_id random_row) ;;
            ret {| title := original_title random_row;
                   poster := poster;
                   trailer := trailer;
                   imdb_id := Loader.imdb_id random_row |})
  end.

End Surprise.

Module SearchMode.
Import Py Gateway Loader Recommender History.

(** [movies[movies["original_title"] == movie_title].iloc[0]] (line 342). *)
Definition first_row (movies : DataFrame) (movie_title : string) : option movie_row :=
  find (fun r => original_title r =? movie_title) (rows movies).

(** Line 344; a missing director is pandas' NaN, here [None]. *)
Definition director_of (has_director_col : bool) (movie_row : movie_row) : string :=
  if has_director_col then
    match director movie_row with
    | Some d => d
    | None => "N/A"
    end
  else "N/A".

(** What the search branch computes for the page. *)
Record search_view : Type := {
  details : option Gateway.details;
  trailer_url : option string;
  poster : option string;
  recommendations : list recommendation
}.

(** Lines 347, 348 and 357: the three fetches for the selected movie. *)
Definition selected_fetches (E : environment) (imdb_id director_name : string) :
  M (option Gateway.details * option string * option string) :=
  details <- get_movie_details_by_imdb E imdb_id director_name ;;
  trailer_url <- fetch_trailer_by_imdb E imdb_id ;;
  poster <- fetch_poster_by_imdb E imdb_id ;;
  ret (details, trailer_url, poster).

(** The search branch (lines 341-348, 357 and 424), without its drawing
    calls.  The first component is [st.session_state.history] afterwards: it
    is updated right after the row lookup, before anything is fetched. *)
Definition search_mode (E : environment) (score : Type)
  (lt : score -> score -> bool) (movies : DataFrame)
  (similarity : list (list score)) (has_director_col : bool)
  (movie_title : string) (history : list string) :
  list string * M search_view :=
  match first_row movies movie_title with
  | None => (history, raise IndexError)
  | Some movie_row =>
      let imdb_id := imdb_id movie_row in
      let director_name := director_of has_director_col movie_row in
      (update_history imdb_id history,
       fetched <- selected_fetches E imdb_id director_name ;;
       recommendations <- recommend E score lt movies similarity movie_title ;;
       ret {| details := fst (fst fetched);
              trailer_url := snd (fst fetched);
              poster := snd fetched;
              recommendations := recommendations |})
  end.

End SearchMode.

Module Sidebar.
Import Py Gateway Loader Recommender.

(** What the sidebar shows for one history item, and the key of its button. *)
Record sidebar_entry : Type := {
  hist_title : string;
  hist_poster : option string;
  key : string
}.

(** [movies[movies["imdb_id"] == hist_imdb].iloc[0]] (line 534). *)
Definition row_of_imdb (movies : DataFrame) (hist_imdb : string) : result movie_row :=
  match find (fun r => imdb_id r =? hist_imdb) (rows movies) with
  | Some row => Ok row
  | None => Raise IndexError
  end.

(** One pass of the loop of lines 532-546, for a run in which the button is
    not clicked. *)
Definition sidebar_entry_for (E : environment) (movies : DataFrame)
  (item : nat * string) : M sidebar_entry :=
  row <- lift (row_of_imdb movies (snd item)) ;;
  hist_poster <- fetch_poster_by_imdb E (snd item) ;;
  ret {| hist_title := original_title row;
         hist_poster := hist_poster;
         key := "hist_" +++ snd item +++ "_" +++ str_of_Z (Z.of_nat (fst item)) |}.

(** [for i, hist_imdb in enumerate(reversed(st.session_state.history))]. *)
Definition sidebar (E : environment) (movies : DataFrame) (history : list string) :
  M (list sidebar_entry) :=
  for_each (sidebar_entry_for E movies) (enumerate (rev history)).

End Sidebar.

(* ================================================================== *)
(** * Properties of the page *)
(* ================================================================== *)

Module PageFacts.
Import Py Gateway Loader Recommender History.
Import GatewayFacts GatewayMore RecommenderFacts RecommenderMore HistoryMore.
Import Surprise SearchMode Sidebar.

(** An identifier that some row of the table carries. *)
Definition in_table (movies : DataFrame) (imdb : string) : Prop :=
  exists row, In row (rows movies) /\ Loader.imdb_id row = imdb.

Section WithEnvironment.
Variable E : environment.

(** A poster fetch followed by a trailer fetch for the same identifier: both
    return, and together they send at most three requests. *)
Lemma poster_then_trailer (imdb : string) (s : state) :
  exists p t s1 s2,
    fetch_poster_by_imdb E imdb s = (Ok p, s1) /\
    fetch_trailer_by_imdb E imdb s1 = (Ok t, s2) /\
    grows_by 3 s s2.
Proof.
  pose proof (fetch_poster_state E imdb s) as Hp.
  destruct (fetch_poster_never_raises E imdb s) as (p & s1 & Hrun1).
  rewrite Hrun1 in Hp. cbn [snd] in Hp.
  pose proof (fetch_trailer_state E imdb s1) as Ht.
  destruct (fetch_trailer_never_raises E imdb s1) as (t & s2 & Hrun2).
  rewrite Hrun2 in Ht. cbn [snd] in Ht.
  exists p, t, s1, s2. split; [exact Hrun1|]. split; [exact Hrun2|].
  apply (grows_by_trans 2 1 s s1 s2).
  - destruct (after_resolving_sent E imdb (movie_url E) s) as (added & Ha & Hl & _).
    exists added. rewrite Hp. split; assumption.
  - destruct (after_resolving_sent E imdb (videos_url E) s1) as (added & Ha & _ & Hl).
    exists added. rewrite Ht. split; [exact Ha|]. apply Hl.
    rewrite Hp. apply after_resolving_cached.
Qed.

(** X12.  [get_random_movie] fails only on an empty table, and then before
    anything is sent.  On a non-empty table it returns, whatever the provider
    does: the title and the identifier it returns are those of one and the
    same row of the table, and it sends at most three requests.  Every row of
    the table can be the one drawn. *)
Theorem get_random_movie_picks_a_row (movies : DataFrame) (draw : nat) :
  (rows movies = [] -> get_random_movie E movies draw = None) /\
  (rows movies <> [] ->
   exists run row,
     get_random_movie E movies draw = Some run /\
     In row (rows movies) /\
     forall s, exists p t s',
       run s = (Ok {| Surprise.title := original_title row;
                      Surprise.poster := p;
                      Surprise.trailer := t;
                      Surprise.imdb_id := Loader.imdb_id row |}, s') /\
       grows_by 3 s s') /\
  (forall i row, nth_error (rows movies) i = Some row ->
                 sample1 movies i = Some row).
Proof.
  split; [|split].
  - intros Hempty. unfold get_random_movie, sample1. now rewrite Hempty.
  - intros Hne. unfold get_random_movie, sample1.
    destruct (rows movies) as [|r0 table] eqn:Hrows; [congruence|].
    destruct (nth_error (r0 :: table) (draw mod List.length (r0 :: table)))
      as [row|] eqn:Hrow.
    + eexists. exists row. split; [reflexivity|].
      split; [now apply nth_error_In with (n := draw mod List.length (r0 :: table))|].
      intros s. unfold bind.
      destruct (poster_then_trailer (Loader.imdb_id row) s)
        as (p & t & s1 & s2 & -> & -> & Hgrows).
      now exists p, t, s2.
    + apply nth_error_None in Hrow.
      pose proof (Nat.mod_upper_bound draw (List.length (r0 :: table))) as Hlt.
      cbn [List.length] in Hrow, Hlt. lia.
  - intros i row Hrow. unfold sample1.
    destruct (rows movies) as [|r0 table] eqn:Hrows; [destruct i; discriminate|].
    rewrite Nat.mod_small; [exact Hrow|].
    apply nth_error_Some. congruence.
Qed.

(** ** The fetches for the selected movie *)

Lemma after_resolving_first (imdb : string) (endpoint : json -> string)
  (s s1 : state) (v : json) :
  _resolve_tmdb_id_from_imdb E imdb s = (Ok v, s1) ->
  sent (after_resolving E imdb endpoint s) =
    sent s1 ++ (if truthy v then [endpoint v] else []) /\
  cache_find imdb (cache (after_resolving E imdb endpoint s)) = Some v.
Proof.
  intros Hrun. unfold after_resolving. rewrite Hrun.
  pose proof (resolve_caches E imdb s s1 v Hrun) as Hc.
  destruct (truthy v); cbn [with_request sent cache].
  - split; [reflexivity | exact Hc].
  - split; [now rewrite app_nil_r | exact Hc].
Qed.

Lemma after_resolving_hit (imdb : string) (endpoint : json -> string)
  (s : state) (v : json) :
  cache_find imdb (cache s) = Some v ->
  sent (after_resolving E imdb endpoint s) =
    sent s ++ (if truthy v then [endpoint v] else []) /\
  cache_find imdb (cache (after_resolving E imdb endpoint s)) = Some v.
Proof.
  intros Hhit.
  pose proof (resolve_hit E imdb v s Hhit) as Hrun.
  destruct (after_resolving_first imdb endpoint s _ v Hrun) as [Hsent Hc].
  split; [exact Hsent | exact Hc].
Qed.

(** X13.  The three fetches for the selected movie all return, and between
    them the identifier is resolved once: after the first resolution (at most
    one find request, none when the identifier is cached or empty) the details,
    the video and the movie request follow in this order when the resolved
    id is truthy, and nothing follows when it is not. *)
Theorem selected_fetches_resolve_once (imdb director_name : string) (s : state) :
  exists v s1 fetched s',
    _resolve_tmdb_id_from_imdb E imdb s = (Ok v, s1) /\
    sent s1 = match cache_find imdb (cache s) with
              | Some _ => sent s
              | None => if imdb =? "" then sent s
                        else sent s ++ [find_url E imdb]
              end /\
    selected_fetches E imdb director_name s = (Ok fetched, s') /\
    sent s' = sent s1 ++
              (if truthy v then [details_url E v; videos_url E v; movie_url E v]
               else []).
Proof.
  destruct (resolve_never_raises E imdb s) as (v & s1 & Hrun).
  pose proof (resolve_sent E imdb s) as Hsent1.
  rewrite Hrun in Hsent1. cbn [snd] in Hsent1.
  unfold selected_fetches, bind.
  pose proof (get_movie_details_state E imdb director_name s) as Hd.
  destruct (get_movie_details_never_raises E imdb director_name s) as (d & sa & Hrd).
  rewrite Hrd in Hd |- *. cbn [snd] in Hd.
  pose proof (fetch_trailer_state E imdb sa) as Ht.
  destruct (fetch_trailer_never_raises E imdb sa) as (t & sb & Hrt).
  rewrite Hrt in Ht |- *. cbn [snd] in Ht.
  pose proof (fetch_poster_state E imdb sb) as Hp.
  destruct (fetch_poster_never_raises E imdb sb) as (p & sc & Hrp).
  rewrite Hrp in Hp |- *. cbn [snd] in Hp.
  exists v, s1, (d, t, p), sc.
  split; [exact Hrun|]. split; [exact Hsent1|]. split; [reflexivity|].
  destruct (after_resolving_first imdb (details_url E) s s1 v Hrun) as [Hsa Hca].
  rewrite <- Hd in Hsa, Hca.
  destruct (after_resolving_hit imdb (videos_url E) sa v Hca) as [Hsb Hcb].
  rewrite <- Ht in Hsb, Hcb.
  destruct (after_resolving_hit imdb (movie_url E) sb v Hcb) as [Hsc _].
  rewrite <- Hp in Hsc.
  rewrite Hsc, Hsb, Hsa.
  destruct (truthy v); rewrite <- !app_assoc; reflexivity.
Qed.

(** ** The search branch *)

Lemma first_row_first_match (movies : DataFrame) (movie_title : string) :
  first_row movies movie_title =
    match first_match movie_title (rows movies) with
    | Some index => nth_error (rows movies) index
    | None => None
    end.
Proof.
  unfold first_row. induction (rows movies) as [|r table IH]; [reflexivity|].
  cbn [find first_match]. destruct (original_title r =? movie_title); [reflexivity|].
  rewrite IH. destruct (first_match movie_title table); reflexivity.
Qed.

Lemma first_match_in_range (movie_title : string) (table : list movie_row)
  (index : nat) :
  first_match movie_title table = Some index -> index < List.length table.
Proof.
  revert index. induction table as [|r table IH]; intros index; [discriminate|].
  cbn [first_match]. destruct (original_title r =? movie_title).
  - intros [= <-]. cbn. lia.
  - destruct (first_match movie_title table) as [i|]; [|discriminate].
    intros [= <-]. specialize (IH i eq_refl). cbn. lia.
Qed.

(** X14.  In the search branch the row looked up at line 342 is the row whose
    position [recommend] uses at line 223.  For a title of the table the
    history becomes [update_history] of that row's identifier, and a history
    of table identifiers stays one; for a title that no row carries the
    branch raises [IndexError] with history, cache and request record
    unchanged. *)
Theorem search_mode_records_first_match (score : Type) (lt : score -> score -> bool)
  (movies : DataFrame) (similarity : list (list score)) (has_director_col : bool)
  (movie_title : string) (history : list string) :
  (forall index, first_match movie_title (rows movies) = Some index ->
     exists row,
       nth_error (rows movies) index = Some row /\
       first_row movies movie_title = Some row /\
       fst (search_mode E score lt movies similarity has_director_col
              movie_title history) = update_history (Loader.imdb_id row) history /\
       (Forall (in_table movies) history ->
        Forall (in_table movies)
          (fst (search_mode E score lt movies similarity has_director_col
                  movie_title history)))) /\
  (first_match movie_title (rows movies) = None ->
   fst (search_mode E score lt movies similarity has_director_col
          movie_title history) = history /\
   forall s,
     snd (search_mode E score lt movies similarity has_director_col
            movie_title history) s = (Raise IndexError, s)).
Proof.
  split.
  - intros index Hindex.
    pose proof (first_match_in_range _ _ _ Hindex) as Hrange.
    destruct (nth_error (rows movies) index) as [row|] eqn:Hrow;
      [|apply nth_error_None in Hrow; lia].
    assert (Hfirst : first_row movies movie_title = Some row)
      by (rewrite first_row_first_match, Hindex; exact Hrow).
    exists row. split; [reflexivity|]. split; [exact Hfirst|].
    unfold search_mode. rewrite Hfirst. cbn [fst].
    split; [reflexivity|].
    intros Hall. apply Forall_forall. intros x Hx.
    apply update_history_In in Hx. destruct Hx as [->|Hx].
    + exists row. split; [now apply nth_error_In with (n := index) | reflexivity].
    + rewrite Forall_forall in Hall. now apply Hall.
  - intros Hnone. unfold search_mode.
    rewrite first_row_first_match, Hnone. split; [reflexivity|].
    intros s. reflexivity.
Qed.

End WithEnvironment.

End PageFacts.

(* ================================================================== *)
(** * Properties of the sidebar *)
(* ================================================================== *)

Module SidebarFacts.
Import Py Gateway Loader Recommender.
Import GatewayFacts GatewayMore RecommenderFacts RecommenderMore.
Import Sidebar PageFacts.

(** ** Decimal numerals and button keys *)

Definition not_underscore (c : ascii) : bool := negb (c =? "_")%char.

Lemma digits_no_underscore (d : Decimal.uint) :
  forallb not_underscore (list_ascii_of_string (NilZero.string_of_uint d)) = true.
Proof.
  assert (H : forall d, forallb not_underscore
                          (list_ascii_of_string (NilEmpty.string_of_uint d)) = true).
  { clear d. induction d; cbn; try exact IHd; reflexivity. }
  destruct d; try apply H. reflexivity.
Qed.

Lemma str_of_nat_no_underscore (i : nat) :
  forallb not_underscore (list_ascii_of_string (str_of_Z (Z.of_nat i))) = true.
Proof.
  unfold str_of_Z. destruct (Z.of_nat i) as [|p|p] eqn:Hi; try lia.
  - reflexivity.
  - apply (digits_no_underscore (Pos.to_uint p)).
Qed.

Lemma str_of_Z_injective (a b : Z) : str_of_Z a = str_of_Z b -> a = b.
Proof.
  assert (Hnonnil : forall z, Z.to_int z <> Decimal.Pos Decimal.Nil /\
                              Z.to_int z <> Decimal.Neg Decimal.Nil).
  { intros [|p|p]; cbn; split; try discriminate;
      intros [= H]; now apply (DecimalPos.Unsigned.to_uint_nonnil p H). }
  unfold str_of_Z. intros Heq.
  assert (Hint : Some (Z.to_int a) = Some (Z.to_int b)).
  { rewrite <- (NilZero.isi (Z.to_int a)), <- (NilZero.isi (Z.to_int b));
      try apply Hnonnil.
    now rewrite Heq. }
  injection Hint as Hint.
  rewrite <- (DecimalZ.of_to a), <- (DecimalZ.of_to b). now rewrite Hint.
Qed.

Lemma list_ascii_of_string_app (a b : string) :
  list_ascii_of_string (a +++ b) = list_ascii_of_string a ++ list_ascii_of_string b.
Proof. induction a as [|c a IH]; [reflexivity|]. cbn. now rewrite IH. Qed.

(** Two texts that agree up to and after a separator which neither tail
    contains have the same tail. *)
Lemma same_tail_after_separator (c : ascii) (d1 d2 r1 r2 : list ascii) :
  ~ In c d1 -> ~ In c d2 -> d1 ++ c :: r1 = d2 ++ c :: r2 -> d1 = d2.
Proof.
  revert d2. induction d1 as [|x d1 IH]; intros [|y d2] H1 H2 Heq.
  - reflexivity.
  - injection Heq as Hc _. exfalso. apply H2. left. now symmetry.
  - injection Heq as Hc _. exfalso. apply H1. now left.
  - injection Heq as Hx Hrest. subst y. f_equal.
    apply IH; [intros H; apply H1; now right | intros H; apply H2; now right | exact Hrest].
Qed.

(** The key of the button of a history item (line 544). *)
Definition key_of (item : nat * string) : string :=
  "hist_" +++ snd item +++ "_" +++ str_of_Z (Z.of_nat (fst item)).

Lemma numeral_not_In_underscore (i : nat) :
  ~ In "_"%char (rev (list_ascii_of_string (str_of_Z (Z.of_nat i)))).
Proof.
  intros Hin. apply in_rev in Hin.
  pose proof (str_of_nat_no_underscore i) as Hd.
  rewrite forallb_forall in Hd. specialize (Hd _ Hin). discriminate.
Qed.

(** Whatever the identifiers are, also when they contain underscores and
    digits themselves: equal keys have equal positions. *)
Lemma key_of_position (a b : nat * string) : key_of a = key_of b -> fst a = fst b.
Proof.
  unfold key_of. intros Heq.
  apply (f_equal list_ascii_of_string) in Heq.
  rewrite !list_ascii_of_string_app in Heq.
  apply (f_equal (@rev ascii)) in Heq.
  rewrite !rev_app_distr in Heq.
  change (rev (list_ascii_of_string "_")) with ["_"%char] in Heq.
  rewrite <- !app_assoc in Heq. cbn [app] in Heq.
  apply same_tail_after_separator in Heq; try apply numeral_not_In_underscore.
  apply (f_equal (@rev ascii)) in Heq. rewrite !rev_involutive in Heq.
  apply (f_equal string_of_list_ascii) in Heq.
  rewrite !string_of_list_ascii_of_string in Heq.
  apply str_of_Z_injective in Heq. lia.
Qed.

Lemma NoDup_map_finer {A B C : Type} (f : A -> B) (g : A -> C) (l : list A) :
  (forall a b, g a = g b -> f a = f b) ->
  NoDup (map f l) -> NoDup (map g l).
Proof.
  intros Hfiner. induction l as [|a l IH]; cbn; intros Hnd; [constructor|].
  inversion Hnd as [|? ? Hnotin Hrest]; subst. constructor; [|now apply IH].
  intros Hin. apply Hnotin. apply in_map_iff in Hin.
  destruct Hin as (b & Hgb & Hb). apply in_map_iff. exists b.
  split; [now apply Hfiner | exact Hb].
Qed.

Lemma enumerate_keys_NoDup (xs : list string) : NoDup (map key_of (enumerate xs)).
Proof.
  apply (NoDup_map_finer fst key_of).
  - intros a b Hab. symmetry. now apply key_of_position.
  - rewrite enumerate_fst. apply seq_NoDup.
Qed.

Lemma combine_seq_snd {A : Type} (xs : list A) (start : nat) :
  map snd (combine (seq start (List.length xs)) xs) = xs.
Proof.
  revert start. induction xs as [|x xs IH]; intros start; [reflexivity|].
  cbn. now rewrite IH.
Qed.

Lemma enumerate_snd {A : Type} (xs : list A) : map snd (enumerate xs) = xs.
Proof. apply combine_seq_snd. Qed.

(** ** The loop *)

Lemma row_of_imdb_in_table (movies : DataFrame) (imdb : string) :
  match row_of_imdb movies imdb with
  | Ok row => In row (rows movies) /\ Loader.imdb_id row = imdb
  | Raise e => e = IndexError /\ ~ in_table movies imdb
  end.
Proof.
  unfold row_of_imdb.
  destruct (find (fun r => Loader.imdb_id r =? imdb) (rows movies)) as [row|] eqn:Hfind.
  - apply find_some in Hfind. destruct Hfind as [Hin Heq].
    apply String.eqb_eq in Heq. now split.
  - split; [reflexivity|]. intros (row & Hin & Hid).
    pose proof (find_none _ _ Hfind row Hin) as Hne. cbn in Hne.
    rewrite Hid, String.eqb_refl in Hne. discriminate.
Qed.

Section WithEnvironment.
Variable E : environment.
Variable movies : DataFrame.

(** What the loop body made of [item]. *)
Definition shows (entry : sidebar_entry) (item : nat * string) : Prop :=
  exists row,
    row_of_imdb movies (snd item) = Ok row /\
    hist_title entry = original_title row /\
    key entry = key_of item.

Lemma sidebar_entry_for_run (item : nat * string) (s : state) :
  match row_of_imdb movies (snd item) with
  | Ok row =>
      exists p s',
        sidebar_entry_for E movies item s =
          (Ok {| hist_title := original_title row;
                 hist_poster := p;
                 key := key_of item |}, s') /\
        grows_by 2 s s'
  | Raise e => sidebar_entry_for E movies item s = (Raise e, s)
  end.
Proof.
  unfold sidebar_entry_for.
  destruct (row_of_imdb movies (snd item)) as [row|e]; [|reflexivity].
  cbn [lift]. unfold bind, ret.
  pose proof (fetch_poster_state E (snd item) s) as Hp.
  destruct (fetch_poster_never_raises E (snd item) s) as (p & s1 & Hrun).
  rewrite Hrun in Hp |- *. cbn [snd] in Hp.
  exists p, s1. split; [reflexivity|].
  destruct (after_resolving_sent E (snd item) (movie_url E) s) as (added & Ha & Hl & _).
  exists added. rewrite Hp. split; assumption.
Qed.

Lemma for_each_sidebar (l : list (nat * string)) (s : state) :
  match for_each (sidebar_entry_for E movies) l s with
  | (Ok entries, s') =>
      Forall2 shows entries l /\ grows_by (2 * List.length l) s s'
  | (Raise e, _) =>
      e = IndexError /\ exists item, In item l /\ ~ in_table movies (snd item)
  end.
Proof.
  revert s. induction l as [|item l IH]; intros s.
  - cbn. split; [constructor | apply grows_by_refl].
  - cbn [for_each]. unfold bind at 1.
    pose proof (sidebar_entry_for_run item s) as Hitem.
    pose proof (row_of_imdb_in_table movies (snd item)) as Hrow.
    destruct (row_of_imdb movies (snd item)) as [row|e] eqn:Hlookup.
    + destruct Hitem as (p & s1 & -> & Hgrows1).
      unfold bind. specialize (IH s1).
      destruct (for_each (sidebar_entry_for E movies) l s1) as [[entries|e] s2].
      * destruct IH as [Hall Hgrows2]. cbn [ret]. split.
        -- constructor; [|exact Hall].
           exists row. cbn. split; [exact Hlookup|]. split; reflexivity.
        -- apply (grows_by_le (2 + 2 * List.length l)); [cbn [List.length]; lia|].
           now apply (grows_by_trans 2 (2 * List.length l) s s1 s2).
      * destruct IH as [-> (bad & Hin & Hbad)]. split; [reflexivity|].
        exists bad. split; [now right | exact Hbad].
    + rewrite Hitem. destruct Hrow as [-> Hbad]. split; [reflexivity|].
      exists item. split; [now left | exact Hbad].
Qed.

Lemma shows_keys (entries : list sidebar_entry) (l : list (nat * string)) :
  Forall2 shows entries l -> map key entries = map key_of l.
Proof.
  induction 1 as [|entry item entries l (row & _ & _ & Hkey) _ IH]; [reflexivity|].
  cbn. now rewrite Hkey, IH.
Qed.

(** X15.  The sidebar loop, whatever the provider does and also when
    identifiers contain underscores or digits: when it completes, no two of its
    buttons have the same key; and it raises nothing but [IndexError], and
    only when the history holds an identifier that no row of the table
    carries. *)
Theorem sidebar_keys_distinct (history : list string) (s : state) :
  match fst (sidebar E movies history s) with
  | Ok entries => NoDup (map key entries)
  | Raise e =>
      e = IndexError /\ exists imdb, In imdb history /\ ~ in_table movies imdb
  end.
Proof.
  unfold sidebar.
  pose proof (for_each_sidebar (enumerate (rev history)) s) as Hrun.
  destruct (for_each (sidebar_entry_for E movies) (enumerate (rev history)) s)
    as [[entries|e] s']; cbn [fst].
  - destruct Hrun as [Hall _].
    rewrite (shows_keys _ _ Hall). apply enumerate_keys_NoDup.
  - destruct Hrun as [-> ([i imdb] & Hin & Hbad)]. split; [reflexivity|].
    exists imdb. split; [|exact Hbad].
    apply enumerate_In, nth_error_In in Hin. now apply in_rev.
Qed.

(** X16.  When every identifier of the history is carried by some row of
    the table, the sidebar loop completes, whatever the provider does: it
    makes one entry per history item, most recent first, each with the title
    of the first row that carries the item's identifier, and it sends at
    most two requests per item. *)
Theorem sidebar_shows_history (history : list string) (s : state) :
  Forall (in_table movies) history ->
  exists entries s',
    sidebar E movies history s = (Ok entries, s') /\
    Forall2 (fun entry imdb =>
               exists row,
                 find (fun r => Loader.imdb_id r =? imdb) (rows movies) = Some row /\
                 hist_title entry = original_title row)
            entries (rev history) /\
    grows_by (2 * List.length history) s s'.
Proof.
  intros Hall. unfold sidebar.
  pose proof (for_each_sidebar (enumerate (rev history)) s) as Hrun.
  destruct (for_each (sidebar_entry_for E movies) (enumerate (rev history)) s)
    as [[entries|e] s'].
  - destruct Hrun as [Hshows Hgrows]. exists entries, s'.
    split; [reflexivity|]. split.
    + rewrite <- (enumerate_snd (rev history)) at 1.
      clear Hgrows. induction Hshows as [|entry item entries l Hshow _ IH];
        [constructor|].
      cbn [map]. constructor; [|exact IH].
      destruct Hshow as (row & Hrow & Htitle & _). exists row.
      split; [|exact Htitle].
      unfold row_of_imdb in Hrow.
      destruct (find (fun r => Loader.imdb_id r =? snd item) (rows movies));
        [congruence | discriminate].
    + now rewrite enumerate_length, length_rev in Hgrows.
  - destruct Hrun as [_ ([i imdb] & Hin & Hbad)]. exfalso. apply Hbad.
    apply enumerate_In, nth_error_In, in_rev in Hin.
    rewrite Forall_forall in Hall. now apply Hall.
Qed.

End WithEnvironment.

Lemma sidebar_shows_history_witness :
  Forall (in_table twins) ["tt1"; "tt2"] /\
  exists entries s',
    sidebar offline twins ["tt1"; "tt2"] initial = (Ok entries, s') /\
    Forall2 (fun entry imdb =>
               exists row,
                 find (fun r => Loader.imdb_id r =? imdb) (rows twins) = Some row /\
                 hist_title entry = original_title row)
            entries (rev ["tt1"; "tt2"]) /\
    grows_by (2 * List.length ["tt1"; "tt2"]) initial s'.
Proof.
  assert (Hall : Forall (in_table twins) ["tt1"; "tt2"]).
  { repeat constructor.
    - exists (movie "tt1" "A"). split; [now left | reflexivity].
    - exists (movie "tt2" "B"). split; [right; now left | reflexivity]. }
  split; [exact Hall|].
  exact (sidebar_shows_history offline twins ["tt1"; "tt2"] initial Hall).
Defined.

End SidebarFacts.

(* ================================================================== *)
(** * The surprise branch and the history (app.py, lines 437-450) *)
(* ================================================================== *)

Module SurpriseMode.
Import Py Gateway Loader History Surprise SearchMode.

(** Lines 440-443: the identifier of the stored pick, or, when that is falsy,
    the identifier of the first row with the pick's title. *)
Definition selected_imdb_id (movies : DataFrame) (random_data : random_movie) :
  result string :=
  if Surprise.imdb_id random_data =? "" then
    match first_row movies (Surprise.title random_data) with
    | Some movie_row => Ok (Loader.imdb_id movie_row)
    | None => Raise IndexError
    end
  else Ok (Surprise.imdb_id random_data).

(** [st.session_state.history] after line 450.  The director lookup of lines
    444-448 stands between the two steps; it is wrapped in
    [try: ... except Exception] and touches neither the identifier nor the
    history. *)
Definition surprise_history (movies : DataFrame) (random_data : random_movie)
  (history : list string) : result (list string) :=
  match selected_imdb_id movies random_data with
  | Ok imdb_id => Ok (update_history imdb_id history)
  | Raise e => Raise e
  end.

End SurpriseMode.

Module SurpriseModeFacts.
Import Py Gateway Loader History Surprise SearchMode SurpriseMode.
Import HistoryMore PageFacts.

(** X17.  For a pick that [get_random_movie] made from the table, the
    surprise branch finds its identifier without raising, also when the
    picked row's identifier is empty, and records in the history an
    identifier that a row of the table carries: a history of table
    identifiers stays one. *)
Theorem surprise_history_in_table (E : environment) (movies : DataFrame)
  (draw : nat) (run : M random_movie) (s s' : state) (random_data : random_movie)
  (history : list string) :
  get_random_movie E movies draw = Some run ->
  run s = (Ok random_data, s') ->
  exists imdb,
    surprise_history movies random_data history = Ok (update_history imdb history) /\
    in_table movies imdb /\
    (Surprise.imdb_id random_data <> "" -> imdb = Surprise.imdb_id random_data) /\
    (Forall (in_table movies) history ->
     Forall (in_table movies) (update_history imdb history)).
Proof.
  intros Hpick Hrun.
  assert (Hrow : exists row, In row (rows movies) /\
                             Surprise.title random_data = original_title row /\
                             Surprise.imdb_id random_data = Loader.imdb_id row).
  { unfold get_random_movie in Hpick.
    destruct (sample1 movies draw) as [row|] eqn:Hsample; [|discriminate].
    injection Hpick as <-. exists row. split.
    - unfold sample1 in Hsample. destruct (rows movies); [discriminate|].
      eapply nth_error_In, Hsample.
    - unfold bind, ret in Hrun.
      destruct (fetch_poster_by_imdb E (Loader.imdb_id row) s) as [[p|e] s1];
        [|discriminate].
      destruct (fetch_trailer_by_imdb E (Loader.imdb_id row) s1) as [[t|e] s2];
        [|discriminate].
      injection Hrun as <- _. split; reflexivity. }
  destruct Hrow as (row & Hin & Htitle & Hid).
  assert (Hsel : exists imdb, selected_imdb_id movies random_data = Ok imdb /\
                              in_table movies imdb /\
                              (Surprise.imdb_id random_data <> "" ->
                               imdb = Surprise.imdb_id random_data)).
  { unfold selected_imdb_id.
    destruct (Surprise.imdb_id random_data =? "") eqn:Hempty.
    - unfold first_row.
      destruct (find (fun r => original_title r =? Surprise.title random_data)
                  (rows movies)) as [found|] eqn:Hfind.
      + exists (Loader.imdb_id found). split; [reflexivity|].
        apply find_some in Hfind. split.
        * exists found. split; [apply Hfind | reflexivity].
        * apply String.eqb_eq in Hempty. congruence.
      + pose proof (find_none _ _ Hfind row Hin) as Hne. cbn in Hne.
        rewrite Htitle, String.eqb_refl in Hne. discriminate.
    - exists (Surprise.imdb_id random_data). split; [reflexivity|].
      split; [|reflexivity]. exists row. split; [exact Hin | now symmetry]. }
  destruct Hsel as (imdb & Hsel & Htable & Hsame).
  exists imdb. unfold surprise_history. rewrite Hsel.
  split; [reflexivity|]. split; [exact Htable|]. split; [exact Hsame|].
  intros Hall. apply Forall_forall. intros x Hx.
  apply update_history_In in Hx. destruct Hx as [->|Hx]; [exact Htable|].
  rewrite Forall_forall in Hall. now apply Hall.
Qed.

(** The second of two movies, picked while the provider is unreachable. *)
Definition picked_offline : random_movie :=
  {| Surprise.title := "B";
     Surprise.poster := None;
     Surprise.trailer := None;
     Surprise.imdb_id := "tt2" |}.

Lemma surprise_history_in_table_witness :
  exists imdb,
    surprise_history RecommenderFacts.twins picked_offline ["tt1"] =
      Ok (update_history imdb ["tt1"]) /\
    in_table RecommenderFacts.twins imdb /\
    (Surprise.imdb_id picked_offline <> "" -> imdb = Surprise.imdb_id picked_offline) /\
    (Forall (in_table RecommenderFacts.twins) ["tt1"] ->
     Forall (in_table RecommenderFacts.twins) (update_history imdb ["tt1"])).
Proof.
  eapply (surprise_history_in_table RecommenderFacts.offline RecommenderFacts.twins 1
            _ GatewayFacts.initial _ picked_offline ["tt1"] eq_refl).
  vm_compute. reflexivity.
Defined.

End SurpriseModeFacts.
